(** * chardev: a single-holder character device over a 1024-byte message

    Shallow embedding of [src/chardev/linux/chardev.c] (the four file
    operations [chardev_open], [chardev_release], [chardev_read] and
    [chardev_write], and the calls [chardev_init] and [chardev_exit] make
    to register and unregister the device) and the properties of its
    specification.

    Target: Linux on an LP64 machine, as the module is built.  [size_t] is
    an unsigned 64-bit integer, [ssize_t] and [loff_t] are signed 64-bit
    integers, [int] is a signed 32-bit integer.  Integers are values of [Z];
    every conversion the C code performs (usual arithmetic conversions,
    assignments, comparisons between a signed and an unsigned operand) is
    written out as a reduction modulo a power of two.  The kernel is
    compiled with wrapping signed arithmetic, so signed additions wrap too.

    [printk] calls have no effect on the device and are left out. *)

From Stdlib Require Import ZArith List Bool Lia.
From Stdlib Require Import Init.Byte.
Import ListNotations.
Local Open Scope Z_scope.

(** ** C integer types *)

Module C.

Definition two32 : Z := 4294967296.
Definition two63 : Z := 9223372036854775808.
Definition two64 : Z := 18446744073709551616.

Definition INT_MAX : Z := 2147483647.
Definition SSIZE_MAX : Z := two63 - 1.
Definition SIZE_MAX : Z := two64 - 1.

(** Conversion to an unsigned 64-bit type ([size_t], [unsigned long],
    [unsigned long long]). *)
Definition to_size_t (z : Z) : Z := z mod two64.

(** Conversion to a signed 64-bit type ([ssize_t], [loff_t]). *)
Definition to_ssize_t (z : Z) : Z := (z + two63) mod two64 - two63.
Definition to_loff_t (z : Z) : Z := to_ssize_t z.

(** Conversion to [int]. *)
Definition to_int (z : Z) : Z := (z + two32 / 2) mod two32 - two32 / 2.

Definition is_size_t (z : Z) : Prop := 0 <= z <= SIZE_MAX.
Definition is_loff_t (z : Z) : Prop := - two63 <= z <= SSIZE_MAX.

Ltac unfold_c :=
  unfold is_size_t, is_loff_t, to_loff_t, to_ssize_t, to_size_t, to_int,
    INT_MAX, SSIZE_MAX, SIZE_MAX, two63, two64, two32 in *.

End C.
Import C.

(** ** Kernel services the module calls *)

(** Error numbers of [<asm-generic/errno-base.h>]. *)
Definition EFAULT : Z := 14.
Definition EBUSY : Z := 16.
Definition EINVAL : Z := 22.
Definition EFBIG : Z := 27.

(** [sizeof(g_message)] for [static char g_message[1024]]. *)
Definition sizeof_g_message : Z := 1024.

(** Bytes [from .. from + n) of an array. *)
Definition slice (mem : list byte) (from n : Z) : list byte :=
  firstn (Z.to_nat n) (skipn (Z.to_nat from) mem).

(** The array with [bs] stored at index [to]. *)
Definition store (mem : list byte) (to : Z) (bs : list byte) : list byte :=
  firstn (Z.to_nat to) mem ++ bs ++ skipn (Z.to_nat to + length bs) mem.

(** Modelled from the spec: [mutex_trylock] is a kernel primitive, not part
    of the module's source.  The spec (4.1) describes a non-blocking attempt
    to take the exclusivity lock.  The lock is a boolean, [true] when held;
    the call returns whether it took the lock, and the lock afterwards. *)
Definition mutex_trylock (m : bool) : bool * bool :=
  if m then (false, m) else (true, true).

(** Modelled from the spec: [mutex_unlock] is a kernel primitive; the spec
    (4.1) has the lock released unconditionally. *)
Definition mutex_unlock (m : bool) : bool := false.

(** Modelled from the spec: [copy_to_user] is a kernel primitive, the
    "copy step" of the spec (4.2).  It returns the number of bytes that
    could not be copied, zero on success.  The user destination is given by
    [u_writable], the number of bytes that can be stored at the user
    pointer; the primitive copies the longest prefix that fits.  The result
    is the bytes delivered and the count left.  Reading a byte outside
    [g_message] has no defined result: [None]. *)
Definition copy_to_user (u_writable : Z) (mem : list byte) (from n : Z)
  : option (list byte * Z) :=
  let copied := Z.max 0 (Z.min n u_writable) in
  if copied =? 0 then Some ([], n)
  else if (0 <=? from) && (from + copied <=? sizeof_g_message)
       then Some (slice mem from copied, n - copied)
       else None.

(** Modelled from the spec: [copy_from_user] is a kernel primitive, the
    "copy step" of the spec (4.3).  It returns the number of bytes that
    could not be copied, zero on success.  The user source is given by
    [u_buffer], the bytes that can be loaded at the user pointer; the
    primitive copies the longest prefix available and, as the kernel
    documents, pads the destination with zero bytes up to the requested
    size.  The result is the destination array afterwards and the count
    left.  Storing a byte outside [g_message] has no defined result:
    [None]. *)
Definition copy_from_user (mem : list byte) (to : Z) (u_buffer : list byte)
  (n : Z) : option (list byte * Z) :=
  let copied := Z.min n (Z.of_nat (length u_buffer)) in
  if n =? 0 then Some (mem, 0)
  else if (0 <=? to) && (to + n <=? sizeof_g_message)
       then Some (store mem to (firstn (Z.to_nat copied) u_buffer
                                  ++ repeat x00 (Z.to_nat (n - copied))),
                  n - copied)
       else None.

(** ** The device *)

(** The module's static state: [g_message], [g_message_size],
    [g_number_open] and [mutex_chardev] ([true] when locked). *)
Record device : Type := mkDevice {
  g_message : list byte;
  g_message_size : Z;
  g_number_open : Z;
  mutex_chardev : bool
}.

(** What a read or write call hands back: the [ssize_t] it returns, the
    value left in [*offset], and the bytes it delivered to the user buffer
    (none for a write). *)
Record reply : Type := mkReply {
  ret : Z;
  f_pos : Z;
  to_user : list byte
}.

(** State when the module has just been loaded. *)
Definition chardev_init : device :=
  {| g_message := repeat x00 1024;
     g_message_size := 0;
     g_number_open := 0;
     mutex_chardev := false |}.

(** [chardev_open]: [-EBUSY] when the lock cannot be taken, else
    [g_number_open++] and 0. *)
Definition chardev_open (st : device) : Z * device :=
  let (taken, m) := mutex_trylock (mutex_chardev st) in
  if negb taken then (- EBUSY, st)
  else (0, {| g_message := g_message st;
              g_message_size := g_message_size st;
              g_number_open := to_size_t (g_number_open st + 1);
              mutex_chardev := m |}).

(** [chardev_release]: [g_number_open--], the lock released, 0. *)
Definition chardev_release (st : device) : Z * device :=
  (0, {| g_message := g_message st;
         g_message_size := g_message_size st;
         g_number_open := to_size_t (g_number_open st - 1);
         mutex_chardev := mutex_unlock (mutex_chardev st) |}).

(** First half of [chardev_read], up to the copy: the [ssize_t] [len_msg]
    is compared with the [size_t] [len] as an unsigned value.  [inl r] when
    the function returns [r] at once, [inr n] when it goes on to copy [n]
    bytes. *)
Definition read_len_msg (st : device) (len offset : Z) : Z + Z :=
  let len_msg := to_ssize_t (g_message_size st - offset) in
  if len_msg =? 0 then inl 0
  else if to_size_t len_msg >? len then inr (to_ssize_t len)
  else if len_msg <? 0 then inl (- EINVAL)
  else inr len_msg.

(** [chardev_read].  [len_msg] is handed to the copy as an
    [unsigned long]; the [unsigned long] the copy returns is stored in the
    [int] [err]; on success [*offset += len_msg] and [len_msg] is
    returned.  The device is not assigned to. *)
Definition chardev_read (st : device) (u_writable len offset : Z)
  : option (reply * device) :=
  match read_len_msg st len offset with
  | inl r => Some ({| ret := r; f_pos := offset; to_user := [] |}, st)
  | inr len_msg =>
      match copy_to_user u_writable (g_message st) offset
              (to_size_t len_msg) with
      | None => None
      | Some (sent, uncopied) =>
          let err := to_int uncopied in
          if err =? 0 then
            Some ({| ret := len_msg;
                     f_pos := to_loff_t (offset + len_msg);
                     to_user := sent |}, st)
          else
            Some ({| ret := - EFAULT; f_pos := offset; to_user := sent |},
                  st)
      end
  end.

(** [chardev_write].  [len_msg = len + *offset] is computed on unsigned
    64-bit values and stored in an [ssize_t], then compared with
    [sizeof(g_message)] as an unsigned value.  A copy that leaves bytes
    sets [g_message_size] to 0; otherwise [g_message_size] restarts from 0
    when [*offset] is 0, [len] is added to it and to [*offset], and [len]
    is returned as an [ssize_t]. *)
Definition chardev_write (st : device) (u_buffer : list byte) (len offset : Z)
  : option (reply * device) :=
  let len_msg := to_ssize_t (len + offset) in
  if to_size_t len_msg >? sizeof_g_message then
    Some ({| ret := - EFBIG; f_pos := offset; to_user := [] |}, st)
  else
    match copy_from_user (g_message st) offset u_buffer len with
    | None => None
    | Some (mem, uncopied) =>
        if negb (uncopied =? 0) then
          Some ({| ret := - EFAULT; f_pos := offset; to_user := [] |},
                {| g_message := mem;
                   g_message_size := 0;
                   g_number_open := g_number_open st;
                   mutex_chardev := mutex_chardev st |})
        else
          let size := if offset =? 0 then 0 else g_message_size st in
          Some ({| ret := to_ssize_t len;
                   f_pos := to_loff_t (offset + len);
                   to_user := [] |},
                {| g_message := mem;
                   g_message_size := to_size_t (size + len);
                   g_number_open := g_number_open st;
                   mutex_chardev := mutex_chardev st |})
    end.

(** ** Calls and runs *)

(** One call of a file operation, with the arguments the caller chooses. *)
Inductive call : Type :=
| Open
| Release
| Read (u_writable len offset : Z)
| Write (u_buffer : list byte) (len offset : Z).

(** The value returned by a call and the device afterwards; [None] when the
    call touches memory outside [g_message]. *)
Definition step (st : device) (c : call) : option (Z * device) :=
  match c with
  | Open => Some (chardev_open st)
  | Release => Some (chardev_release st)
  | Read u_writable len offset =>
      match chardev_read st u_writable len offset with
      | Some (r, st') => Some (ret r, st')
      | None => None
      end
  | Write u_buffer len offset =>
      match chardev_write st u_buffer len offset with
      | Some (r, st') => Some (ret r, st')
      | None => None
      end
  end.

(** A run of calls: the returned values in order and the final device. *)
Fixpoint run (st : device) (cs : list call) : option (list Z * device) :=
  match cs with
  | [] => Some ([], st)
  | c :: cs' =>
      match step st c with
      | None => None
      | Some (r, st') =>
          match run st' cs' with
          | None => None
          | Some (rs, st'') => Some (r :: rs, st'')
          end
      end
  end.

(** Arguments of the types the file operations declare: [len] a [size_t],
    [offset] a [loff_t]. *)
Definition well_typed (c : call) : Prop :=
  match c with
  | Open | Release => True
  | Read _ len offset | Write _ len offset => is_size_t len /\ is_loff_t offset
  end.

(** Devices that some run of calls produces from the freshly loaded module. *)
Inductive reachable : device -> Prop :=
| reachable_init : reachable chardev_init
| reachable_step st c r st' :
    reachable st -> well_typed c -> step st c = Some (r, st') ->
    reachable st'.

(** Number of [Open] calls of a run that returned 0, given the calls and
    the values they returned. *)
Fixpoint successful_opens (cs : list call) (rs : list Z) : Z :=
  match cs, rs with
  | Open :: cs', r :: rs' =>
      (if r =? 0 then 1 else 0) + successful_opens cs' rs'
  | _ :: cs', _ :: rs' => successful_opens cs' rs'
  | _, _ => 0
  end.

(** Number of [Release] calls of a run. *)
Fixpoint releases (cs : list call) : Z :=
  match cs with
  | Release :: cs' => 1 + releases cs'
  | _ :: cs' => releases cs'
  | [] => 0
  end.

(** [g_message] has the 1024 elements of its declaration. *)
Definition array_ok (st : device) : Prop :=
  length (g_message st) = 1024%nat.

(** The device of the spec's data model (section 3): a 1024-byte buffer
    whose recorded length is within the capacity. *)
Definition well_formed (st : device) : Prop :=
  array_ok st /\ 0 <= g_message_size st <= sizeof_g_message.

(** The stored message: the first [g_message_size] bytes of [g_message]. *)
Definition content (st : device) : list byte :=
  slice (g_message st) 0 (g_message_size st).

(** ** Sample data *)

Definition hello : list byte := [x48; x45; x4c; x4c; x4f].
Definition ab : list byte := [x41; x42].
Definition cd : list byte := [x43; x44].
Definition xyz : list byte := [x58; x59; x5a].
Definition b0_b9 : list byte :=
  [x30; x31; x32; x33; x34; x35; x36; x37; x38; x39].

Definition full : list byte := repeat x41 1024.

(** The device after [full] has been written at offset 0 and one more byte
    at offset 1. *)
Definition overfull : device :=
  {| g_message := store full 1 [x42];
     g_message_size := 1025;
     g_number_open := 0;
     mutex_chardev := false |}.

(** The device held by one opener, nothing written yet. *)
Definition opened : device :=
  {| g_message := repeat x00 1024;
     g_message_size := 0;
     g_number_open := 1;
     mutex_chardev := true |}.

(** The device once [data] has been stored as the message. *)
Definition holding (data : list byte) : device :=
  {| g_message := store (repeat x00 1024) 0 data;
     g_message_size := Z.of_nat (length data);
     g_number_open := 0;
     mutex_chardev := false |}.

(** ** Disciplines of use *)

(** A call other than a write. *)
Definition keeps_message (c : call) : Prop :=
  match c with
  | Write _ _ _ => False
  | _ => True
  end.

(** A read. *)
Definition is_read (c : call) : Prop :=
  match c with
  | Read _ _ _ => True
  | _ => False
  end.

(** A write that restarts the message at offset 0 or continues it where it
    ends; the other calls are free. *)
Definition sequential (st : device) (c : call) : Prop :=
  match c with
  | Write _ _ offset => offset = 0 \/ offset = g_message_size st
  | _ => True
  end.

(** Devices produced from the freshly loaded module by calls that are all
    [sequential]. *)
Inductive orderly : device -> Prop :=
| orderly_init : orderly chardev_init
| orderly_step st c r st' :
    orderly st -> well_typed c -> sequential st c ->
    step st c = Some (r, st') -> orderly st'.

(** Devices produced from the freshly loaded module when [Release] is
    called only while the lock is held, as the kernel does: one release for
    each open that returned 0. *)
Inductive in_protocol : device -> Prop :=
| in_protocol_init : in_protocol chardev_init
| in_protocol_step st c r st' :
    in_protocol st -> (c = Release -> mutex_chardev st = true) ->
    step st c = Some (r, st') -> in_protocol st'.

(** ** Loading and unloading the module *)

(** [chardev_init] and [chardev_exit] of the source do nothing but call the
    kernel's device registry.  They are embedded as the list of calls they
    make, in order, with the arguments passed; what the kernel answers to
    each call is an input. *)
Module Registration.

(** [<linux/err.h>]: the last 4095 addresses stand for error codes. *)
Definition MAX_ERRNO : Z := 4095.
Definition IS_ERR (ptr : Z) : bool :=
  to_size_t ptr >=? to_size_t (- MAX_ERRNO).
Definition PTR_ERR (ptr : Z) : Z := to_ssize_t ptr.
Definition NULL : Z := 0.

(** [<linux/kdev_t.h>]: a [dev_t] is 32 bits, the minor in the low 20. *)
Definition MINORBITS : Z := 20.
Definition MKDEV (ma mi : Z) : Z := Z.lor (Z.shiftl ma MINORBITS) mi mod two32.

(** The calls into the kernel, with the arguments that vary. *)
Inductive kcall : Type :=
| alloc_chrdev_region (baseminor count : Z)
| register_chrdev_region (from count : Z)
| unregister_chrdev (major : Z)
| unregister_chrdev_region (from count : Z)
| class_create
| class_destroy (cls : Z)
| device_create (cls devt : Z)
| device_destroy (cls devt : Z)
| cdev_init
| cdev_add (devt count : Z)
| cdev_del
| mutex_destroy.

(** What the kernel answers to the calls of [chardev_init]: the [int] of
    the region call, the device number [alloc_chrdev_region] stores through
    its pointer when it returns 0, the addresses returned by [class_create]
    and [device_create], the [int] of [cdev_add]. *)
Record answers : Type := mkAnswers {
  region_ret : Z;
  region_dev : Z;
  class_ptr : Z;
  device_ptr : Z;
  cdev_add_ret : Z
}.

(** The module's statics [major], [chardev_dev] and [chardev_class]. *)
Record globals : Type := mkGlobals {
  major : Z;
  chardev_dev : Z;
  chardev_class : Z
}.

(** Their initial values; [major] is assigned nowhere in the source. *)
Definition at_load : globals :=
  {| major := 0; chardev_dev := MKDEV 0 0; chardev_class := NULL |}.

(** [chardev_init]: the [int] returned, the statics afterwards, the calls
    made. *)
Definition chardev_init (g : globals) (k : answers)
  : Z * globals * list kcall :=
  let '(ret, dev, t) :=
    if major g =? 0 then
      (region_ret k,
       (if region_ret k =? 0 then region_dev k else chardev_dev g),
       [alloc_chrdev_region 0 1])
    else
      (region_ret k, MKDEV (major g) 0,
       [register_chrdev_region (MKDEV (major g) 0) 1]) in
  if ret <? 0 then
    (ret,
     {| major := major g; chardev_dev := dev;
        chardev_class := chardev_class g |}, t)
  else
    let g' := {| major := major g; chardev_dev := dev;
                 chardev_class := class_ptr k |} in
    if IS_ERR (chardev_class g') then
      (to_int (PTR_ERR (chardev_class g')), g',
       t ++ [class_create; unregister_chrdev (major g')])
    else if device_ptr k =? NULL then
      (to_int (PTR_ERR NULL), g',
       t ++ [class_create;
             device_create (chardev_class g') (chardev_dev g');
             class_destroy (chardev_class g');
             unregister_chrdev (major g')])
    else
      (cdev_add_ret k, g',
       t ++ [class_create;
             device_create (chardev_class g') (chardev_dev g');
             cdev_init;
             cdev_add (chardev_dev g') 1]).

(** [chardev_exit]: the calls made. *)
Definition chardev_exit (g : globals) : list kcall :=
  [cdev_del;
   device_destroy (chardev_class g) (chardev_dev g);
   class_destroy (chardev_class g);
   unregister_chrdev_region (chardev_dev g) 1;
   mutex_destroy].

(** Any call that undoes an earlier one. *)
Definition undoes (c : kcall) : Prop :=
  match c with
  | unregister_chrdev _ | unregister_chrdev_region _ _ | class_destroy _
  | device_destroy _ _ | cdev_del | mutex_destroy => True
  | _ => False
  end.

(** Answers of a kernel where every call succeeds: major 240 assigned. *)
Definition all_fine : answers :=
  {| region_ret := 0; region_dev := MKDEV 240 0;
     class_ptr := 4096; device_ptr := 8192; cdev_add_ret := 0 |}.

(** The same with [device_create] failing with [-ENOMEM]. *)
Definition device_fails : answers :=
  {| region_ret := 0; region_dev := MKDEV 240 0;
     class_ptr := 4096; device_ptr := two64 - 12; cdev_add_ret := 0 |}.

(** The same with [class_create] failing with [-ENOMEM]. *)
Definition class_fails : answers :=
  {| region_ret := 0; region_dev := MKDEV 240 0;
     class_ptr := two64 - 12; device_ptr := 8192; cdev_add_ret := 0 |}.

End Registration.

(** ** Facts on the integer conversions *)

Section Conversions.

Lemma to_size_t_id z : is_size_t z -> to_size_t z = z.
Proof. unfold_c. intros H. apply Z.mod_small. lia. Qed.

Lemma to_ssize_t_id z : is_loff_t z -> to_ssize_t z = z.
Proof. unfold_c. intros H. rewrite Z.mod_small; lia. Qed.

Lemma to_size_t_range z : is_size_t (to_size_t z).
Proof.
    unfold_c. pose proof (Z.mod_pos_bound z 18446744073709551616). lia.
Qed.

Lemma to_ssize_t_range z : is_loff_t (to_ssize_t z).
Proof.
    unfold_c.
    pose proof (Z.mod_pos_bound (z + 9223372036854775808) 18446744073709551616).
    lia.
Qed.

  (** A signed value seen as unsigned: negative values land in the upper
      half of the range. *)
Lemma to_size_t_signed z :
    is_loff_t z ->
    to_size_t z = if z <? 0 then z + two64 else z.
Proof.
    unfold_c. intros H. destruct (Z.ltb_spec z 0).
    - symmetry. apply (Z.mod_unique_pos _ _ (-1)); lia.
    - apply Z.mod_small. lia.
Qed.

  (** An unsigned value seen as signed. *)
Lemma to_ssize_t_unsigned z :
    is_size_t z ->
    to_ssize_t z = if z <=? SSIZE_MAX then z else z - two64.
Proof.
    unfold_c. intros H.
    destruct (Z.leb_spec z (9223372036854775808 - 1)).
    - rewrite Z.mod_small; lia.
    - assert (E : (z + 9223372036854775808) mod 18446744073709551616
                  = z - 9223372036854775808).
      { symmetry. apply (Z.mod_unique_pos _ _ 1); lia. }
      lia.
Qed.

Lemma to_size_t_to_ssize_t z : to_size_t (to_ssize_t z) = to_size_t z.
Proof.
    unfold to_size_t, to_ssize_t.
    rewrite Zminus_mod_idemp_l.
    replace (z + two63 - two63) with z by lia. reflexivity.
Qed.

Lemma to_size_t_add_l a b : to_size_t (to_size_t a + b) = to_size_t (a + b).
Proof. unfold to_size_t. apply Zplus_mod_idemp_l. Qed.

Lemma to_int_id z : - (INT_MAX + 1) <= z <= INT_MAX -> to_int z = z.
Proof. unfold_c. intros H. cbn. rewrite Z.mod_small; lia. Qed.

End Conversions.


(** ** Facts on arrays and on the copy primitives *)

Section Arrays.

Lemma slice_nil (mem : list byte) (from : Z) : slice mem from 0 = [].
Proof. reflexivity. Qed.

Lemma slice_length (mem : list byte) (from n : Z) :
  0 <= from -> 0 <= n -> from + n <= Z.of_nat (length mem) ->
  Z.of_nat (length (slice mem from n)) = n.
Proof.
  intros Hf Hn Hb. unfold slice.
  rewrite length_firstn, length_skipn. lia.
Qed.

Lemma store_length (mem : list byte) (to : Z) (bs : list byte) :
  0 <= to -> to + Z.of_nat (length bs) <= Z.of_nat (length mem) ->
  length (store mem to bs) = length mem.
Proof.
  intros Ht Hb. unfold store.
  rewrite !length_app, length_firstn, length_skipn. lia.
Qed.

Lemma store_nil (mem : list byte) (to : Z) : store mem to [] = mem.
Proof.
  unfold store. cbn [app length]. rewrite Nat.add_0_r.
  apply firstn_skipn.
Qed.

(** Reading back what was stored at the start of the array. *)
Lemma slice_store_0 (mem bs : list byte) :
  slice (store mem 0 bs) 0 (Z.of_nat (length bs)) = bs.
Proof.
  unfold slice, store. cbn [Z.to_nat firstn skipn app].
  rewrite Nat2Z.id, firstn_app, Nat.sub_diag, firstn_all.
  cbn [firstn]. apply app_nil_r.
Qed.

(** The piece in front of a store is left as it was. *)
Lemma slice_store_before (mem bs : list byte) (to n : Z) :
  0 <= n <= to -> to <= Z.of_nat (length mem) ->
  slice (store mem to bs) 0 n = slice mem 0 n.
Proof.
  intros Hn Hb. unfold slice, store. cbn [Z.to_nat skipn].
  rewrite firstn_app, length_firstn.
  replace (Z.to_nat n - Nat.min (Z.to_nat to) (length mem))%nat with 0%nat
    by lia.
  cbn [firstn]. rewrite app_nil_r, firstn_firstn. f_equal. lia.
Qed.

(** The stored bytes are found where they were put. *)
Lemma slice_store_at (mem bs : list byte) (to : Z) :
  0 <= to <= Z.of_nat (length mem) ->
  slice (store mem to bs) to (Z.of_nat (length bs)) = bs.
Proof.
  intros Hb. unfold slice, store.
  rewrite skipn_app, length_firstn.
  replace (Z.to_nat to - Nat.min (Z.to_nat to) (length mem))%nat with 0%nat
    by lia.
  rewrite skipn_firstn_comm, Nat.sub_diag. cbn [firstn skipn app].
  rewrite Nat2Z.id, firstn_app, Nat.sub_diag, firstn_all.
  cbn [firstn]. apply app_nil_r.
Qed.

Lemma copy_to_user_uncopied u_writable mem from n sent uncopied :
  0 <= n ->
  copy_to_user u_writable mem from n = Some (sent, uncopied) ->
  0 <= uncopied <= n.
Proof.
  intros Hn. unfold copy_to_user.
  destruct (Z.eqb_spec (Z.max 0 (Z.min n u_writable)) 0) as [E | E].
  - intros [= _ <-]. lia.
  - destruct (_ && _); [ | discriminate ]. intros [= _ <-]. lia.
Qed.

(** A copy to the user succeeds in full when the destination has room for
    it and the source lies within the array. *)
Lemma copy_to_user_all u_writable mem from n :
  0 <= n <= u_writable -> 0 <= from -> from + n <= sizeof_g_message ->
  copy_to_user u_writable mem from n = Some (slice mem from n, 0).
Proof.
  intros Hn Hf Hb. unfold copy_to_user.
  replace (Z.max 0 (Z.min n u_writable)) with n by lia.
  destruct (Z.eqb_spec n 0) as [-> | E].
  - reflexivity.
  - replace ((0 <=? from) && (from + n <=? sizeof_g_message)) with true.
    + now rewrite Z.sub_diag.
    + symmetry. apply andb_true_iff. split; apply Z.leb_le; lia.
Qed.

(** A copy from the user that reports no byte left has stored the first
    [n] bytes of the source, within the array. *)
Lemma copy_from_user_all mem to u_buffer n mem' :
  0 <= n ->
  copy_from_user mem to u_buffer n = Some (mem', 0) ->
  n <= Z.of_nat (length u_buffer) /\
  mem' = store mem to (firstn (Z.to_nat n) u_buffer) /\
  (n = 0 \/ 0 <= to /\ to + n <= sizeof_g_message).
Proof.
  intros Hn. unfold copy_from_user.
  destruct (Z.eqb_spec n 0) as [-> | E].
  - intros [= <-]. cbn [Z.to_nat firstn]. rewrite store_nil.
    repeat split; auto; lia.
  - destruct (_ && _) eqn:B; [ | discriminate ].
    apply andb_true_iff in B. destruct B as [B1 B2].
    apply Z.leb_le in B1, B2.
    intros [= <- H0].
    assert (Hm : Z.min n (Z.of_nat (length u_buffer)) = n) by lia.
    rewrite Hm, Z.sub_diag. cbn [Z.to_nat repeat]. rewrite app_nil_r.
    repeat split; auto; lia.
Qed.

End Arrays.

(** ** Writing *)

Section Writing.

(** The capacity test of [chardev_write] on arguments whose sum neither
    wraps nor is negative: it compares the plain sum with 1024. *)
Lemma capacity_test_plain (len offset : Z) :
  0 <= len + offset <= SIZE_MAX ->
  to_size_t (to_ssize_t (len + offset)) = len + offset.
Proof.
  intros H. rewrite to_size_t_to_ssize_t. now apply to_size_t_id.
Qed.

(** A write whose target lies within the array and whose source can be
    loaded in full is accepted: the bytes are stored at [offset], the
    length restarts from zero when [offset] is zero and grows by [len]. *)
Lemma chardev_write_accepts st u_buffer len offset :
  0 <= offset -> 0 <= len -> offset + len <= sizeof_g_message ->
  len <= Z.of_nat (length u_buffer) ->
  chardev_write st u_buffer len offset =
  Some ({| ret := len; f_pos := offset + len; to_user := [] |},
        {| g_message :=
             store (g_message st) offset (firstn (Z.to_nat len) u_buffer);
           g_message_size :=
             to_size_t ((if offset =? 0 then 0 else g_message_size st) + len);
           g_number_open := g_number_open st;
           mutex_chardev := mutex_chardev st |}).
Proof.
  intros Ho Hl Hb Hu. unfold chardev_write, copy_from_user.
  unfold sizeof_g_message in *.
  assert (Hs : 0 <= len + offset <= SIZE_MAX) by (unfold_c; lia).
  rewrite (capacity_test_plain _ _ Hs).
  destruct (Z.gtb_spec (len + offset) 1024) as [G | _]; [ lia | ].
  assert (Hret : to_ssize_t len = len)
    by (apply to_ssize_t_id; unfold_c; lia).
  assert (Hpos : to_loff_t (offset + len) = offset + len)
    by (apply to_ssize_t_id; unfold_c; lia).
  destruct (Z.eqb_spec len 0) as [-> | E].
  - cbn [Z.eqb negb Z.to_nat firstn]. rewrite store_nil, Hret, Hpos.
    reflexivity.
  - replace ((0 <=? offset) && (offset + len <=? 1024)) with true
      by (symmetry; apply andb_true_iff; split; apply Z.leb_le; lia).
    replace (Z.min len (Z.of_nat (length u_buffer))) with len by lia.
    rewrite Z.sub_diag. cbn [Z.eqb negb Z.to_nat repeat].
    rewrite app_nil_r, Hret, Hpos. reflexivity.
Qed.

(** Whatever [chardev_write] does, [g_message] keeps its 1024 elements. *)
Lemma chardev_write_array st u_buffer len offset r st' :
  array_ok st -> 0 <= len ->
  chardev_write st u_buffer len offset = Some (r, st') -> array_ok st'.
Proof.
  unfold array_ok, chardev_write. intros Ha Hl.
  destruct (_ >? _); [ now intros [= _ <-] | ].
  destruct (copy_from_user _ _ _ _) as [[mem uncopied] | ] eqn:Ec;
    [ | discriminate ].
  assert (Hm : length mem = 1024%nat).
  { unfold copy_from_user in Ec.
    destruct (Z.eqb_spec len 0) as [-> | E].
    - now injection Ec as <- _.
    - destruct (_ && _) eqn:B; [ | discriminate ].
      apply andb_true_iff in B. destruct B as [B1 B2].
      apply Z.leb_le in B1, B2. unfold sizeof_g_message in B2.
      injection Ec as <- _. rewrite store_length; auto.
      rewrite length_app, length_firstn, repeat_length, Ha. lia. }
  destruct (negb _); intros [= _ <-]; exact Hm.
Qed.

(** An accepted write has its target inside the array and its source
    loaded in full. *)
Lemma chardev_write_accepted_within st u_buffer len offset r st' :
  is_size_t len -> is_loff_t offset ->
  chardev_write st u_buffer len offset = Some (r, st') ->
  0 <= ret r ->
  0 <= offset /\ offset + len <= sizeof_g_message /\
  len <= Z.of_nat (length u_buffer).
Proof.
  intros Hl Ho Hw Hret.
  unfold chardev_write in Hw.
  destruct (Z.gtb_spec (to_size_t (to_ssize_t (len + offset)))
              sizeof_g_message) as [G | G].
  - injection Hw as <- _. cbn [ret] in Hret. unfold EFBIG in Hret. lia.
  - destruct (copy_from_user _ _ _ _) as [[mem uncopied] | ] eqn:Ec;
      [ | discriminate ].
    destruct (Z.eqb_spec uncopied 0) as [-> | E].
    + apply copy_from_user_all in Ec; [ | apply Hl ].
      destruct Ec as (Hu & _ & [-> | [H1 H2]]); [ | lia ].
      rewrite to_size_t_to_ssize_t, Z.add_0_l, (to_size_t_signed _ Ho) in G.
      unfold sizeof_g_message in *. revert G. unfold_c.
      destruct (Z.ltb_spec offset 0); lia.
    + cbn [negb] in Hw. injection Hw as <- _. cbn [ret] in Hret.
      unfold EFAULT in Hret. lia.
Qed.

(** C10: a write of zero bytes at offset 0 is accepted: it returns 0 with
    the offset still 0, sets the recorded length to 0 and leaves every byte
    of the buffer as it was. *)
Theorem empty_write_at_0_truncates st u_buffer :
  chardev_write st u_buffer 0 0 =
  Some ({| ret := 0; f_pos := 0; to_user := [] |},
        {| g_message := g_message st;
           g_message_size := 0;
           g_number_open := g_number_open st;
           mutex_chardev := mutex_chardev st |}).
Proof. reflexivity. Qed.

(** C5: a write whose end [offset + len] lies beyond the 1024 bytes of the
    buffer returns [-EFBIG]; nothing is copied, and buffer, length and
    offset are as before the call.  [len] is a byte count that fits the
    [ssize_t] the function returns. *)
Theorem write_beyond_capacity_rejected st u_buffer len offset :
  0 <= len <= SSIZE_MAX -> is_loff_t offset ->
  sizeof_g_message < offset + len ->
  chardev_write st u_buffer len offset =
  Some ({| ret := - EFBIG; f_pos := offset; to_user := [] |}, st).
Proof.
  intros Hl Ho Hb. unfold chardev_write. unfold sizeof_g_message in *.
  assert (Hs : 0 <= len + offset <= SIZE_MAX) by (unfold_c; lia).
  rewrite (capacity_test_plain _ _ Hs).
  destruct (Z.gtb_spec (len + offset) 1024) as [_ | G];
    [ reflexivity | lia ].
Qed.

(** C6: when the capacity test lets a write through and the copy from the
    user reports bytes left, the write returns [-EFAULT] and the recorded
    length is 0, whatever it was before. *)
Theorem write_copy_fault_resets_length st u_buffer len offset mem uncopied :
  (to_size_t (to_ssize_t (len + offset)) >? sizeof_g_message) = false ->
  copy_from_user (g_message st) offset u_buffer len = Some (mem, uncopied) ->
  uncopied <> 0 ->
  exists st',
    chardev_write st u_buffer len offset =
    Some ({| ret := - EFAULT; f_pos := offset; to_user := [] |}, st') /\
    g_message_size st' = 0 /\
    g_message st' = mem.
Proof.
  intros Hcap Hcopy Hne. unfold chardev_write. rewrite Hcap, Hcopy.
  destruct (Z.eqb_spec uncopied 0) as [E | _]; [ contradiction | ].
  cbn [negb]. eexists. split; [ reflexivity | ]. split; reflexivity.
Qed.

(** C4: a write that is accepted returns [len] and leaves [offset + len] in
    the offset; the bytes are in the buffer at [offset], and those in front
    of them are untouched.  At offset 0 the recorded length becomes [len]
    and the stored message is the data written; at another offset the
    recorded length is the one before plus [len] (in [size_t]). *)
Theorem write_accepted_bookkeeping st u_buffer len offset r st' :
  array_ok st -> is_size_t (g_message_size st) ->
  is_size_t len -> is_loff_t offset ->
  chardev_write st u_buffer len offset = Some (r, st') ->
  0 <= ret r ->
  ret r = len /\
  f_pos r = offset + len /\
  slice (g_message st') offset len = firstn (Z.to_nat len) u_buffer /\
  Z.of_nat (length (firstn (Z.to_nat len) u_buffer)) = len /\
  slice (g_message st') 0 offset = slice (g_message st) 0 offset /\
  (offset = 0 ->
     g_message_size st' = len /\
     content st' = firstn (Z.to_nat len) u_buffer) /\
  (offset <> 0 ->
     g_message_size st' = to_size_t (g_message_size st + len) /\
     (g_message_size st + len <= SIZE_MAX ->
      g_message_size st' = g_message_size st + len)).
Proof.
  intros Ha Hsz Hl Ho Hw Hret.
  pose proof (chardev_write_accepted_within st u_buffer len offset r st'
                Hl Ho Hw Hret) as Hpre.
  destruct Hpre as (H0 & Hb & Hu).
  assert (Hlen : 0 <= len) by apply Hl.
  rewrite (chardev_write_accepts st u_buffer len offset H0 Hlen Hb Hu) in Hw.
  injection Hw as <- <-. cbn [ret f_pos g_message g_message_size].
  assert (Hd : Z.of_nat (length (firstn (Z.to_nat len) u_buffer)) = len)
    by (rewrite length_firstn; lia).
  unfold array_ok in Ha. unfold sizeof_g_message in Hb.
  repeat split.
  - rewrite <- Hd at 2. apply slice_store_at. lia.
  - exact Hd.
  - apply slice_store_before; lia.
  - subst offset. cbn [Z.eqb Z.add]. now apply to_size_t_id.
  - subst offset. unfold content. cbn [g_message g_message_size Z.eqb Z.add].
    rewrite (to_size_t_id _ Hl). rewrite <- Hd at 2. apply slice_store_0.
  - destruct (Z.eqb_spec offset 0); [ contradiction | reflexivity ].
  - destruct (Z.eqb_spec offset 0); [ contradiction | ].
    intros Hfit. apply to_size_t_id. unfold is_size_t in *. lia.
Qed.

End Writing.

(** ** Reading *)

Section Reading.

(** With the offset inside the stored message, [len_msg] is the number of
    bytes left, cut down to [len]. *)
Lemma read_len_msg_within st len offset :
  0 <= g_message_size st <= sizeof_g_message -> is_size_t len ->
  0 <= offset <= g_message_size st ->
  read_len_msg st len offset =
  if g_message_size st - offset =? 0 then inl 0
  else inr (Z.min (g_message_size st - offset) len).
Proof.
  unfold sizeof_g_message. intros Hs Hl Ho. unfold read_len_msg.
  set (d := g_message_size st - offset).
  assert (Hd : 0 <= d <= 1024) by (unfold d; lia).
  rewrite (to_ssize_t_id d) by (unfold_c; lia).
  destruct (Z.eqb_spec d 0) as [E | E]; [ reflexivity | ].
  rewrite (to_size_t_id d) by (unfold_c; lia).
  destruct (Z.gtb_spec d len) as [G | G].
  - rewrite (to_ssize_t_id len) by (revert Hl; unfold_c; lia).
    f_equal. lia.
  - destruct (Z.ltb_spec d 0); [ lia | ]. f_equal. lia.
Qed.

(** The number of bytes [chardev_read] asks the copy for never exceeds
    [len]. *)
Lemma read_len_msg_le_len st len offset n :
  is_size_t len -> read_len_msg st len offset = inr n ->
  0 <= to_size_t n <= len.
Proof.
  intros Hl. unfold read_len_msg.
  set (m := to_ssize_t (g_message_size st - offset)).
  destruct (m =? 0); [ discriminate | ].
  destruct (Z.gtb_spec (to_size_t m) len) as [G | G].
  - intros [= <-]. rewrite to_size_t_to_ssize_t, (to_size_t_id _ Hl).
    unfold is_size_t in Hl. lia.
  - destruct (m <? 0); [ discriminate | ]. intros [= <-].
    pose proof (to_size_t_range m) as R. unfold is_size_t in R. lia.
Qed.

(** [-EINVAL] is returned only for a [len] above [SSIZE_MAX]. *)
Lemma read_EINVAL_only_for_huge_len st len offset :
  read_len_msg st len offset = inl (- EINVAL) -> SSIZE_MAX < len.
Proof.
  unfold read_len_msg.
  set (m := to_ssize_t (g_message_size st - offset)).
  pose proof (to_ssize_t_range (g_message_size st - offset)) as R.
  fold m in R.
  destruct (m =? 0); [ discriminate | ].
  destruct (Z.gtb_spec (to_size_t m) len) as [G | G]; [ discriminate | ].
  destruct (Z.ltb_spec m 0) as [N | N]; [ | discriminate ]. intros _.
  rewrite (to_size_t_signed _ R) in G.
  destruct (Z.ltb_spec m 0); [ | lia ]. revert R G. unfold_c. lia.
Qed.

(** With the offset beyond the stored message and a [len] that fits
    [ssize_t], the negative [len_msg] compares above [len] as an unsigned
    value: the function goes on to copy [len] bytes from beyond the
    message. *)
Lemma read_beyond_content_copies st len offset :
  is_size_t (g_message_size st) -> is_loff_t offset ->
  0 <= len <= SSIZE_MAX ->
  g_message_size st - offset < 0 ->
  read_len_msg st len offset = inr len.
Proof.
  intros Hs Ho Hl Hneg. unfold read_len_msg.
  set (d := g_message_size st - offset).
  assert (Hd : is_loff_t d) by (unfold d; revert Hs Ho; unfold_c; lia).
  rewrite (to_ssize_t_id d Hd).
  destruct (Z.eqb_spec d 0) as [E | _]; [ fold d in Hneg; lia | ].
  rewrite (to_size_t_signed d Hd).
  destruct (Z.ltb_spec d 0) as [_ | P]; [ | fold d in Hneg; lia ].
  destruct (Z.gtb_spec (d + two64) len) as [_ | G].
  - f_equal. apply to_ssize_t_id. revert Hl. unfold_c. lia.
  - revert Hd Hl G. unfold_c. lia.
Qed.

(** C3: with the offset inside the stored message ([0 <= offset <= length])
    and room at the user for the bytes asked, a read returns
    [min (length - offset) len] bytes, those of the buffer from [offset]
    on, and leaves [offset] advanced by that number; with [offset = length]
    it returns 0 bytes, whatever [len] is. *)
Theorem read_within_content st u_writable len offset :
  well_formed st -> is_size_t len ->
  0 <= offset <= g_message_size st ->
  (Z.min (g_message_size st - offset) len <= u_writable ->
   chardev_read st u_writable len offset =
   Some ({| ret := Z.min (g_message_size st - offset) len;
            f_pos := offset + Z.min (g_message_size st - offset) len;
            to_user := slice (g_message st) offset
                         (Z.min (g_message_size st - offset) len) |}, st) /\
   Z.of_nat (length (slice (g_message st) offset
                       (Z.min (g_message_size st - offset) len)))
   = Z.min (g_message_size st - offset) len) /\
  (offset = g_message_size st ->
   chardev_read st u_writable len offset =
   Some ({| ret := 0; f_pos := offset; to_user := [] |}, st)).
Proof.
  intros [Ha Hs] Hl Ho. unfold chardev_read.
  rewrite (read_len_msg_within st len offset Hs Hl Ho).
  unfold array_ok in Ha. unfold sizeof_g_message in Hs.
  set (n := Z.min (g_message_size st - offset) len).
  assert (Hn : 0 <= n <= 1024) by (unfold n, is_size_t in *; lia).
  split.
  - intros Hroom. split.
    + destruct (Z.eqb_spec (g_message_size st - offset) 0) as [E | E].
      * assert (n = 0) as -> by (unfold n, is_size_t in *; lia).
        now rewrite Z.add_0_r, slice_nil.
      * rewrite (to_size_t_id n) by (unfold_c; lia).
        rewrite copy_to_user_all
          by (unfold sizeof_g_message, n in *; lia).
        change (to_int 0) with 0. cbv zeta. cbn [Z.eqb]. unfold to_loff_t.
        rewrite (to_ssize_t_id (offset + n)) by (unfold_c; lia).
        reflexivity.
    + apply slice_length; unfold n in *; lia.
  - intros ->. now rewrite Z.sub_diag.
Qed.

(** C7: when a read reaches the copy and the copy reports bytes left, the
    read returns [-EFAULT], the offset is the one passed in, and the device
    is as before.  This holds when [len] fits an [int], as every count the
    kernel hands to a read does, and, for any [len], when the offset lies
    within the message of a device of the data model: in both cases the
    count left by the copy fits the [int] it is stored in. *)
Theorem read_copy_fault_no_effect st u_writable len offset n sent uncopied :
  is_size_t len ->
  len <= INT_MAX \/ (well_formed st /\ 0 <= offset <= g_message_size st) ->
  read_len_msg st len offset = inr n ->
  copy_to_user u_writable (g_message st) offset (to_size_t n)
  = Some (sent, uncopied) ->
  uncopied <> 0 ->
  chardev_read st u_writable len offset =
  Some ({| ret := - EFAULT; f_pos := offset; to_user := sent |}, st).
Proof.
  intros Hl Hfit Hreq Hcopy Hne. unfold chardev_read. rewrite Hreq, Hcopy.
  pose proof (read_len_msg_le_len st len offset n Hl Hreq) as Hn.
  pose proof (copy_to_user_uncopied _ _ _ _ _ _ (proj1 Hn) Hcopy) as Hu.
  assert (Hint : to_size_t n <= INT_MAX).
  { destruct Hfit as [Hlen | [[_ Hs] Ho]]; [ lia | ].
    rewrite (read_len_msg_within st len offset Hs Hl Ho) in Hreq.
    destruct (_ =? _); [ discriminate | ]. injection Hreq as <-.
    unfold sizeof_g_message in Hs.
    rewrite to_size_t_id; unfold is_size_t in *; unfold_c; lia. }
  rewrite to_int_id by (revert Hint; unfold INT_MAX; lia).
  destruct (Z.eqb_spec uncopied 0) as [E | _]; [ contradiction | ].
  reflexivity.
Qed.

(** C2, at the input of the spec's P5: with a 5-byte message stored, a read
    of 1 byte at offset 10 is not refused; it returns 1, delivers the byte
    at index 10 of the buffer and leaves the offset at 11. *)
Theorem read_beyond_content_not_refused :
  run chardev_init [Write hello 5 0] = Some ([5], holding hello) /\
  g_message_size (holding hello) = 5 /\
  read_len_msg (holding hello) 1 10 = inr 1 /\
  chardev_read (holding hello) 1 1 10 =
  Some ({| ret := 1; f_pos := 11; to_user := [x00] |}, holding hello).
Proof. repeat split; vm_compute; reflexivity. Qed.

End Reading.

(** ** Opening, releasing and runs of calls *)

Section Lifecycle.

(** Reads and writes leave the lock and the open counter alone. *)
Lemma chardev_read_device st u_writable len offset r st' :
  chardev_read st u_writable len offset = Some (r, st') -> st' = st.
Proof.
  unfold chardev_read. destruct (read_len_msg st len offset).
  - now intros [= _ <-].
  - destruct (copy_to_user _ _ _ _) as [[sent uncopied] | ];
      [ | discriminate ].
    cbv zeta. destruct (_ =? _); now intros [= _ <-].
Qed.

Lemma chardev_write_frame st u_buffer len offset r st' :
  chardev_write st u_buffer len offset = Some (r, st') ->
  mutex_chardev st' = mutex_chardev st /\
  g_number_open st' = g_number_open st.
Proof.
  unfold chardev_write. destruct (_ >? _); [ now intros [= _ <-] | ].
  destruct (copy_from_user _ _ _ _) as [[mem uncopied] | ];
    [ | discriminate ].
  destruct (negb _); intros [= _ <-]; split; reflexivity.
Qed.

(** What one call does to the open counter. *)
Lemma step_number_open st c r st' :
  is_size_t (g_number_open st) ->
  step st c = Some (r, st') ->
  g_number_open st' =
  to_size_t (g_number_open st + (successful_opens [c] [r] - releases [c])).
Proof.
  intros Hn. destruct c as [ | | u len offset | u len offset];
    cbn [step successful_opens releases].
  - unfold chardev_open, mutex_trylock.
    destruct (mutex_chardev st); cbn [negb]; intros [= <- <-].
    + cbn [g_number_open Z.eqb].
      rewrite <- (to_size_t_id _ Hn) at 1. f_equal; lia.
    + cbn [Z.eqb g_number_open]. f_equal; lia.
  - unfold chardev_release. intros [= <- <-]. cbn [g_number_open].
    f_equal; lia.
  - destruct (chardev_read st u len offset) as [[rp st1] | ] eqn:E;
      [ | discriminate ].
    intros [= _ <-]. apply chardev_read_device in E. subst st1.
    rewrite <- (to_size_t_id _ Hn) at 1. f_equal; lia.
  - destruct (chardev_write st u len offset) as [[rp st1] | ] eqn:E;
      [ | discriminate ].
    intros [= _ <-]. apply chardev_write_frame in E. destruct E as [_ ->].
    rewrite <- (to_size_t_id _ Hn) at 1. f_equal; lia.
Qed.

Lemma run_number_open cs : forall rs st st',
  is_size_t (g_number_open st) ->
  run st cs = Some (rs, st') ->
  g_number_open st' =
  to_size_t (g_number_open st + (successful_opens cs rs - releases cs)).
Proof.
  induction cs as [ | c cs IH]; intros rs st st' Hn.
  - intros [= <- <-]. cbn [successful_opens releases].
    rewrite <- (to_size_t_id _ Hn) at 1. f_equal; lia.
  - cbn [run]. destruct (step st c) as [[r st1] | ] eqn:Es; [ | discriminate ].
    destruct (run st1 cs) as [[rs1 st2] | ] eqn:Er; [ | discriminate ].
    intros [= <- <-].
    pose proof (step_number_open st c r st1 Hn Es) as H1.
    assert (Hn1 : is_size_t (g_number_open st1))
      by (rewrite H1; apply to_size_t_range).
    rewrite (IH rs1 st1 st2 Hn1 Er), H1, to_size_t_add_l.
    assert (Hc : successful_opens (c :: cs) (r :: rs1) =
                 successful_opens [c] [r] + successful_opens cs rs1)
      by (destruct c; cbn [successful_opens]; lia).
    assert (Hr : releases (c :: cs) = releases [c] + releases cs)
      by (destruct c; cbn [releases]; lia).
    rewrite Hc, Hr. f_equal; lia.
Qed.

(** C8: the lock is the whole state machine.  An open while the lock is
    held returns [-EBUSY] and changes nothing; an open while it is free
    returns 0, takes the lock and adds one to the counter; a release frees
    the lock.  No call changes the lock in another way, and a call that
    returns an error leaves the lock as it was. *)
Theorem exclusivity_state_machine :
  (forall st, mutex_chardev st = true -> chardev_open st = (- EBUSY, st)) /\
  (forall st, mutex_chardev st = false ->
     exists st', chardev_open st = (0, st') /\
       mutex_chardev st' = true /\
       g_number_open st' = to_size_t (g_number_open st + 1) /\
       (0 <= g_number_open st < SIZE_MAX ->
        g_number_open st' = g_number_open st + 1)) /\
  (forall st, exists st', chardev_release st = (0, st') /\
     mutex_chardev st' = false) /\
  (forall st c r st', step st c = Some (r, st') ->
     mutex_chardev st' <> mutex_chardev st ->
     (c = Open /\ r = 0 /\
      mutex_chardev st = false /\ mutex_chardev st' = true) \/
     (c = Release /\ r = 0 /\
      mutex_chardev st = true /\ mutex_chardev st' = false)) /\
  (forall st c r st', step st c = Some (r, st') -> r < 0 ->
     mutex_chardev st' = mutex_chardev st).
Proof.
  repeat apply conj.
  - intros st H. unfold chardev_open, mutex_trylock. now rewrite H.
  - intros st H. unfold chardev_open, mutex_trylock. rewrite H. cbn [negb].
    eexists. split; [ reflexivity | ]. cbn [mutex_chardev g_number_open].
    repeat split. intros Hc. apply to_size_t_id. unfold is_size_t. lia.
  - intros st. eexists. split; reflexivity.
  - intros st c r st' Hs Hm.
    destruct c as [ | | u len offset | u len offset]; cbn [step] in Hs.
    + left. revert Hs Hm. unfold chardev_open, mutex_trylock.
      destruct (mutex_chardev st) eqn:L; cbn [negb]; intros [= <- <-];
        cbn [mutex_chardev]; intros Hm;
        [ now elim Hm | repeat split ].
    + right. injection Hs as <- <-. revert Hm. cbn [mutex_chardev].
      unfold mutex_unlock. destruct (mutex_chardev st); intros Hm;
        [ repeat split | now elim Hm ].
    + destruct (chardev_read st u len offset) as [[rp st1] | ] eqn:E;
        [ | discriminate ].
      injection Hs as _ <-. apply chardev_read_device in E. subst st1.
      now elim Hm.
    + destruct (chardev_write st u len offset) as [[rp st1] | ] eqn:E;
        [ | discriminate ].
      injection Hs as _ <-. apply chardev_write_frame in E.
      destruct E as [E _]. now elim Hm.
  - intros st c r st' Hs Hr.
    destruct c as [ | | u len offset | u len offset]; cbn [step] in Hs.
    + revert Hs. unfold chardev_open, mutex_trylock.
      destruct (mutex_chardev st) eqn:L; cbn [negb]; intros [= <- <-];
        [ exact L | lia ].
    + injection Hs as <- _. lia.
    + destruct (chardev_read st u len offset) as [[rp st1] | ] eqn:E;
        [ | discriminate ].
      injection Hs as _ <-. apply chardev_read_device in E. now subst st1.
    + destruct (chardev_write st u len offset) as [[rp st1] | ] eqn:E;
        [ | discriminate ].
      injection Hs as _ <-. now apply chardev_write_frame in E.
Qed.

(** C9, as the code has it: the open counter is not monotone.  A successful
    open adds one to it and a release takes one off; a refused open, a read
    and a write leave it alone.  After any run of calls on the freshly
    loaded module it is the number of successful opens less the number of
    releases, in [size_t] arithmetic. *)
Theorem open_count_is_opens_less_releases cs rs st :
  run chardev_init cs = Some (rs, st) ->
  g_number_open st = to_size_t (successful_opens cs rs - releases cs).
Proof.
  intros Hr.
  assert (H0 : is_size_t (g_number_open chardev_init))
    by (cbn; unfold_c; lia).
  rewrite (run_number_open cs rs chardev_init st H0 Hr).
  reflexivity.
Qed.

End Lifecycle.

(** ** Reachable devices *)

Section Reachable.

Lemma run_reachable cs : forall st rs st',
  reachable st -> Forall well_typed cs ->
  run st cs = Some (rs, st') -> reachable st'.
Proof.
  induction cs as [ | c cs IH]; intros st rs st' Hst Hty.
  - now intros [= _ <-].
  - cbn [run]. destruct (step st c) as [[r st1] | ] eqn:Es; [ | discriminate ].
    destruct (run st1 cs) as [[rs1 st2] | ] eqn:Er; [ | discriminate ].
    intros [= _ <-]. inversion Hty as [ | ? ? Hc Hcs]; subst.
    apply (IH st1 rs1 st2); auto.
    now apply (reachable_step st c r st1).
Qed.


(** C1, at two writes the capacity test lets through: 1024 bytes at offset
    0, then 1 byte at offset 1.  Both are accepted, and the recorded length
    is then 1025, above the 1024 bytes of the buffer. *)
Theorem write_sequence_exceeds_capacity :
  run chardev_init [Write full 1024 0; Write [x42] 1 1]
  = Some ([1024; 1], overfull) /\
  reachable overfull /\
  sizeof_g_message < g_message_size overfull.
Proof.
  assert (Hrun : run chardev_init [Write full 1024 0; Write [x42] 1 1]
                 = Some ([1024; 1], overfull))
    by (vm_compute; reflexivity).
  split; [ exact Hrun | split ].
  - apply (run_reachable _ _ _ _ reachable_init) in Hrun; auto.
    repeat constructor; unfold_c; lia.
  - reflexivity.
Qed.

(** What the excess leads to: a read of the whole recorded length goes past
    the end of the array. *)
Lemma read_of_overfull_leaves_array :
  read_len_msg overfull 1025 0 = inr 1025 /\
  chardev_read overfull 1025 1025 0 = None.
Proof. split; vm_compute; reflexivity. Qed.

(** C9, as the spec words it, fails: a release takes the counter from 1
    back to 0. *)
Lemma open_count_decreases_on_release :
  step chardev_init Open = Some (0, opened) /\
  step opened Release = Some (0, chardev_init) /\
  g_number_open chardev_init < g_number_open opened.
Proof. repeat split. Qed.

End Reachable.

(** ** The properties at the inputs of the spec's tests *)

Section Instances.

(** P3: ten bytes stored, a read of 4 at offset 3. *)
Lemma read_within_content_witness :
  well_formed (holding b0_b9) /\
  0 <= 3 <= g_message_size (holding b0_b9) /\
  chardev_read (holding b0_b9) 4 4 3 =
  Some ({| ret := 4; f_pos := 7; to_user := [x33; x34; x35; x36] |},
        holding b0_b9).
Proof.
  assert (Hwf : well_formed (holding b0_b9)).
  { split; [ reflexivity | cbn; unfold sizeof_g_message; lia ]. }
  assert (Hl : is_size_t 4) by (unfold_c; lia).
  assert (Ho : 0 <= 3 <= g_message_size (holding b0_b9)) by (cbn; lia).
  split; [ exact Hwf | split; [ exact Ho | ] ].
  destruct (read_within_content (holding b0_b9) 4 4 3 Hwf Hl Ho) as [H _].
  assert (Hroom : Z.min (g_message_size (holding b0_b9) - 3) 4 <= 4)
    by (cbn; lia).
  destruct (H Hroom) as [E _]. exact E.
Defined.

(** P2: a read at the end of the message, for any [len] and any user
    destination. *)
Example read_at_end_of_message (u_writable k : Z) :
  chardev_read (holding hello) u_writable k 5 =
  Some ({| ret := 0; f_pos := 5; to_user := [] |}, holding hello).
Proof. reflexivity. Qed.

(** The [-EINVAL] branch is reached with a [len] above [SSIZE_MAX]. *)
Example read_beyond_content_huge_len :
  chardev_read (holding hello) 0 SIZE_MAX 10 =
  Some ({| ret := - EINVAL; f_pos := 10; to_user := [] |}, holding hello).
Proof. vm_compute. reflexivity. Qed.

(** A read of 4 bytes into a destination with room for 2. *)
Lemma read_copy_fault_witness :
  read_len_msg (holding hello) 4 0 = inr 4 /\
  copy_to_user 2 (g_message (holding hello)) 0 (to_size_t 4)
  = Some ([x48; x45], 2) /\
  chardev_read (holding hello) 2 4 0 =
  Some ({| ret := - EFAULT; f_pos := 0; to_user := [x48; x45] |},
        holding hello).
Proof.
  assert (Hl : is_size_t 4) by (unfold_c; lia).
  assert (Hfit : 4 <= INT_MAX \/
                 (well_formed (holding hello) /\
                  0 <= 0 <= g_message_size (holding hello)))
    by (left; unfold INT_MAX; lia).
  assert (Hreq : read_len_msg (holding hello) 4 0 = inr 4) by reflexivity.
  assert (Hcopy : copy_to_user 2 (g_message (holding hello)) 0 (to_size_t 4)
                  = Some ([x48; x45], 2)) by reflexivity.
  assert (Hne : 2 <> 0) by lia.
  split; [ exact Hreq | split; [ exact Hcopy | ] ].
  exact (read_copy_fault_no_effect (holding hello) 2 4 0 4 [x48; x45] 2
           Hl Hfit Hreq Hcopy Hne).
Defined.

(** P4: 30 bytes at offset 1000. *)
Lemma write_beyond_capacity_witness :
  sizeof_g_message < 1000 + 30 /\
  chardev_write (holding hello) (repeat x41 30) 30 1000 =
  Some ({| ret := - EFBIG; f_pos := 1000; to_user := [] |}, holding hello).
Proof.
  assert (Hl : 0 <= 30 <= SSIZE_MAX) by (unfold_c; lia).
  assert (Ho : is_loff_t 1000) by (unfold_c; lia).
  assert (Hb : sizeof_g_message < 1000 + 30)
    by (unfold sizeof_g_message; lia).
  split; [ exact Hb | ].
  exact (write_beyond_capacity_rejected (holding hello) (repeat x41 30)
           30 1000 Hl Ho Hb).
Defined.

(** A write of 3 bytes from a source of which 1 byte can be loaded. *)
Lemma write_copy_fault_witness :
  g_message_size (holding ab) = 2 /\
  exists st',
    chardev_write (holding ab) [x43] 3 0 =
    Some ({| ret := - EFAULT; f_pos := 0; to_user := [] |}, st') /\
    g_message_size st' = 0 /\
    g_message st' = store (g_message (holding ab)) 0 [x43; x00; x00].
Proof.
  split; [ reflexivity | ].
  assert (Hcap : (to_size_t (to_ssize_t (3 + 0)) >? sizeof_g_message) = false)
    by reflexivity.
  assert (Hcopy : copy_from_user (g_message (holding ab)) 0 [x43] 3
                  = Some (store (g_message (holding ab)) 0 [x43; x00; x00], 2))
    by reflexivity.
  assert (Hne : 2 <> 0) by lia.
  exact (write_copy_fault_resets_length (holding ab) [x43] 3 0 _ 2
           Hcap Hcopy Hne).
Defined.

(** P6: "AB" at offset 0, then "XYZ" at offset 0. *)
Lemma write_accepted_bookkeeping_witness :
  run chardev_init [Write ab 2 0; Write xyz 3 0] = Some ([2; 3], holding xyz) /\
  chardev_write (holding ab) xyz 3 0 =
  Some ({| ret := 3; f_pos := 3; to_user := [] |}, holding xyz) /\
  g_message_size (holding xyz) = 3 /\
  content (holding xyz) = xyz.
Proof.
  assert (Hrun : run chardev_init [Write ab 2 0; Write xyz 3 0]
                 = Some ([2; 3], holding xyz)) by (vm_compute; reflexivity).
  assert (Hw : chardev_write (holding ab) xyz 3 0 =
               Some ({| ret := 3; f_pos := 3; to_user := [] |}, holding xyz))
    by (vm_compute; reflexivity).
  assert (Ha : array_ok (holding ab)) by reflexivity.
  assert (Hs : is_size_t (g_message_size (holding ab)))
    by (cbn; unfold_c; lia).
  assert (Hl : is_size_t 3) by (unfold_c; lia).
  assert (Ho : is_loff_t 0) by (unfold_c; lia).
  assert (Hr : 0 <= ret {| ret := 3; f_pos := 3; to_user := [] |})
    by (cbn; lia).
  destruct (write_accepted_bookkeeping (holding ab) xyz 3 0 _ _
              Ha Hs Hl Ho Hw Hr) as (_ & _ & _ & _ & _ & H0 & _).
  destruct (H0 eq_refl) as [E1 E2].
  repeat split; assumption.
Defined.

(** Beyond [SSIZE_MAX] the sum [len + offset] can wrap around: the count
    [SIZE_MAX] at offset 1 passes the capacity test, and the copy then
    leaves the array. *)
Example write_count_above_SSIZE_MAX_wraps :
  (to_size_t (to_ssize_t (SIZE_MAX + 1)) >? sizeof_g_message) = false /\
  chardev_write chardev_init [] SIZE_MAX 1 = None.
Proof. split; vm_compute; reflexivity. Qed.

(** With the offset beyond the message and a [len] of [2^32], the count
    left by a copy that stores nothing is [2^32], which is 0 as an [int]:
    the read reports [2^32] bytes. *)
Example read_count_above_INT_MAX_truncates :
  copy_to_user 0 (g_message (holding hello)) 10 two32 = Some ([], two32) /\
  chardev_read (holding hello) 0 two32 10 =
  Some ({| ret := two32; f_pos := 10 + two32; to_user := [] |},
        holding hello).
Proof. split; vm_compute; reflexivity. Qed.

(** P8: a refused read and a refused write inside a session do not keep
    the holder from releasing, and the next open succeeds. *)
Example release_after_failures :
  run chardev_init
    [Open; Write hello 5 0; Read 0 5 0; Write [] 30 1000; Release; Open]
  = Some ([0; 5; - EFAULT; - EFBIG; 0; 0],
          {| g_message := g_message (holding hello);
             g_message_size := 5;
             g_number_open := 1;
             mutex_chardev := true |}).
Proof. vm_compute. reflexivity. Qed.

(** P7: "AB" at offset 0, then "CD" at offset 2. *)
Example chained_write_accumulates :
  run chardev_init [Write ab 2 0; Write cd 2 2]
  = Some ([2; 2], holding (ab ++ cd)) /\
  g_message_size (holding (ab ++ cd)) = 4 /\
  content (holding (ab ++ cd)) = [x41; x42; x43; x44].
Proof. repeat split; vm_compute; reflexivity. Qed.

(** A held device refuses a second open; the holder's release frees it. *)
Lemma exclusivity_state_machine_witness :
  chardev_open opened = (- EBUSY, opened) /\
  chardev_open chardev_init = (0, opened) /\
  chardev_release opened = (0, chardev_init).
Proof.
  destruct exclusivity_state_machine as (Hbusy & _).
  split; [ exact (Hbusy opened eq_refl) | split; reflexivity ].
Defined.

(** Two opens, the second refused, a release and an open again: two
    successful opens, one release, counter 1. *)
Lemma open_count_witness :
  run chardev_init [Open; Open; Release; Open]
  = Some ([0; -16; 0; 0], opened) /\
  g_number_open opened = to_size_t (2 - 1).
Proof.
  assert (Hrun : run chardev_init [Open; Open; Release; Open]
                 = Some ([0; -16; 0; 0], opened)) by reflexivity.
  split; [ exact Hrun | ].
  exact (open_count_is_opens_less_releases _ _ _ Hrun).
Defined.

End Instances.

(** ** Reads in general *)

Section ReadContract.

(** Consecutive pieces of an array make one piece. *)
Lemma slice_app (mem : list byte) (from n1 n2 : Z) :
  0 <= from -> 0 <= n1 -> 0 <= n2 ->
  slice mem from n1 ++ slice mem (from + n1) n2 = slice mem from (n1 + n2).
Proof.
  intros Hf H1 H2. unfold slice.
  rewrite !Z2Nat.inj_add by lia.
  rewrite (Nat.add_comm (Z.to_nat from)), <- skipn_skipn.
  set (l := skipn (Z.to_nat from) mem).
  rewrite <- (firstn_skipn (Z.to_nat n1) l) at 3.
  destruct (Nat.le_gt_cases (Z.to_nat n1) (length l)) as [L | L].
  - rewrite firstn_app, firstn_firstn, length_firstn.
    replace (Nat.min (Z.to_nat n1 + Z.to_nat n2) (Z.to_nat n1))
      with (Z.to_nat n1) by lia.
    do 2 f_equal. lia.
  - rewrite (skipn_all2 l) by lia. rewrite firstn_nil, !app_nil_r.
    rewrite !firstn_all2 by (try rewrite length_firstn; lia). reflexivity.
Qed.

(** When the first half of a read asks for [n] bytes that lie within the
    array and fit the user's room, the read delivers them. *)
Lemma chardev_read_copies st u_writable len offset n :
  read_len_msg st len offset = inr n ->
  0 <= n <= u_writable -> 0 <= offset -> offset + n <= sizeof_g_message ->
  chardev_read st u_writable len offset =
  Some ({| ret := n; f_pos := offset + n;
           to_user := slice (g_message st) offset n |}, st).
Proof.
  intros Hreq Hn Ho Hb. unfold chardev_read. rewrite Hreq.
  pose proof Hb as Hb'. unfold sizeof_g_message in Hb'.
  rewrite (to_size_t_id n) by (unfold_c; lia).
  rewrite copy_to_user_all by lia.
  change (to_int 0) with 0. cbv zeta. cbn [Z.eqb]. unfold to_loff_t.
  rewrite (to_ssize_t_id (offset + n)) by (unfold_c; lia).
  reflexivity.
Qed.

(** With the offset inside the message of a device of the data model and
    room at the user, the read delivers what is left, up to [len]. *)
Lemma chardev_read_within st u_writable len offset :
  well_formed st -> is_size_t len ->
  0 <= offset <= g_message_size st ->
  Z.min (g_message_size st - offset) len <= u_writable ->
  chardev_read st u_writable len offset =
  Some ({| ret := Z.min (g_message_size st - offset) len;
           f_pos := offset + Z.min (g_message_size st - offset) len;
           to_user := slice (g_message st) offset
                        (Z.min (g_message_size st - offset) len) |}, st).
Proof.
  intros [Ha Hs] Hl Ho Hroom.
  pose proof (read_len_msg_within st len offset Hs Hl Ho) as Hreq.
  unfold sizeof_g_message in Hs. unfold is_size_t in Hl.
  destruct (Z.eqb_spec (g_message_size st - offset) 0) as [E | E].
  - unfold chardev_read. rewrite Hreq.
    replace (Z.min (g_message_size st - offset) len) with 0 by lia.
    now rewrite Z.add_0_r, slice_nil.
  - apply chardev_read_copies; unfold sizeof_g_message; auto; lia.
Qed.

(** The ways a read can end. *)
Lemma chardev_read_outcome st u_writable len offset r st' :
  chardev_read st u_writable len offset = Some (r, st') ->
  st' = st /\
  ((read_len_msg st len offset = inl (ret r) /\
    f_pos r = offset /\ to_user r = []) \/
   exists n uncopied,
     read_len_msg st len offset = inr n /\
     copy_to_user u_writable (g_message st) offset (to_size_t n)
     = Some (to_user r, uncopied) /\
     ((to_int uncopied = 0 /\ ret r = n /\
       f_pos r = to_loff_t (offset + n)) \/
      (to_int uncopied <> 0 /\ ret r = - EFAULT /\ f_pos r = offset))).
Proof.
  unfold chardev_read. destruct (read_len_msg st len offset) as [e | n].
  - intros [= <- <-]. split; [ reflexivity | left ]. repeat split.
  - destruct (copy_to_user _ _ _ _) as [[sent uncopied] | ] eqn:Ec;
      [ | discriminate ].
    cbv zeta. destruct (Z.eqb_spec (to_int uncopied) 0) as [E | E];
      intros [= <- <-]; (split; [ reflexivity | right ]);
      exists n, uncopied; (split; [ reflexivity | split; [ exact Ec | ] ]).
    + left. repeat split. exact E.
    + right. repeat split. exact E.
Qed.

(** The count a read asks the copy for, when [len] fits [ssize_t]. *)
Lemma read_len_msg_count st len offset n :
  0 <= len <= SSIZE_MAX ->
  read_len_msg st len offset = inr n ->
  0 <= n <= len /\ to_size_t n = n.
Proof.
  intros Hl Hreq.
  assert (Hsz : is_size_t len) by (revert Hl; unfold_c; lia).
  pose proof (read_len_msg_le_len st len offset n Hsz Hreq) as Hn.
  assert (H0 : 0 <= n).
  { revert Hreq. unfold read_len_msg.
    set (m := to_ssize_t (g_message_size st - offset)).
    destruct (m =? 0); [ discriminate | ].
    destruct (_ >? _).
    - intros [= <-]. rewrite to_ssize_t_id; revert Hl; unfold_c; lia.
    - destruct (Z.ltb_spec m 0); [ discriminate | ]. now intros [= <-]. }
  assert (E : to_size_t n = n).
  { pose proof (to_ssize_t_range (g_message_size st - offset)) as R.
    apply to_size_t_id. revert Hreq. unfold read_len_msg.
    set (m := to_ssize_t (g_message_size st - offset)) in *.
    destruct (m =? 0); [ discriminate | ].
    destruct (_ >? _).
    - intros [= <-]. rewrite to_ssize_t_id; revert Hl; unfold_c; lia.
    - destruct (Z.ltb_spec m 0); [ discriminate | ]. intros [= <-].
      revert R H0. unfold_c. lia. }
  rewrite E in Hn. auto.
Qed.

(** A copy to the user that leaves nothing delivered all [n] bytes, from
    within the array and within the user's room. *)
Lemma copy_to_user_none_left u_writable mem from n sent :
  0 <= n ->
  copy_to_user u_writable mem from n = Some (sent, 0) ->
  sent = slice mem from n /\
  (n = 0 \/ 0 < n <= u_writable /\ 0 <= from /\ from + n <= sizeof_g_message).
Proof.
  intros Hn. unfold copy_to_user.
  destruct (Z.eqb_spec (Z.max 0 (Z.min n u_writable)) 0) as [E | E].
  - intros [= <- ->]. split; [ reflexivity | now left ].
  - destruct (_ && _) eqn:B; [ | discriminate ].
    apply andb_true_iff in B. destruct B as [B1 B2].
    apply Z.leb_le in B1, B2. intros [= <- H0].
    assert (Hc : Z.max 0 (Z.min n u_writable) = n) by lia.
    rewrite Hc in *. split; [ reflexivity | right; lia ].
Qed.

(** The first half of a read lets an offset beyond the recorded length
    through, and the copy serves it from the array. *)
Lemma chardev_read_beyond st u_writable len offset :
  is_size_t (g_message_size st) ->
  g_message_size st < offset ->
  0 <= len <= u_writable -> offset + len <= sizeof_g_message ->
  chardev_read st u_writable len offset =
  Some ({| ret := len; f_pos := offset + len;
           to_user := slice (g_message st) offset len |}, st).
Proof.
  intros Hs Hgt Hl Hb. pose proof Hb as Hb'. unfold sizeof_g_message in Hb'.
  apply chardev_read_copies; auto; [ | unfold is_size_t in Hs; lia ].
  apply read_beyond_content_copies; auto.
  - revert Hs. unfold_c. lia.
  - revert Hs. unfold_c. lia.
  - lia.
Qed.

End ReadContract.

(** ** What a caller of read can rely on *)

Section ReadProperties.

(** X1: a read that returns a count has delivered exactly that many bytes,
    those of the array from [offset] on; the count is at most [len] and at
    most the room at the user, the offset has advanced by it, and the
    device is as before.  This holds in every state, for every [len] that
    fits an [int]. *)
Theorem read_delivers_what_it_returns st u_writable len offset r st' :
  array_ok st -> is_loff_t offset ->
  0 <= len <= INT_MAX -> 0 <= u_writable ->
  chardev_read st u_writable len offset = Some (r, st') ->
  0 <= ret r ->
  st' = st /\
  ret r <= len /\ ret r <= u_writable /\
  to_user r = slice (g_message st) offset (ret r) /\
  Z.of_nat (length (to_user r)) = ret r /\
  f_pos r = offset + ret r.
Proof.
  intros Ha Ho Hl Hw Hrd Hret.
  assert (Hl' : 0 <= len <= SSIZE_MAX) by (revert Hl; unfold_c; lia).
  destruct (chardev_read_outcome _ _ _ _ _ _ Hrd)
    as [-> [(Hreq & Hpos & Hsent) | (n & uncopied & Hreq & Hcopy & Hend)]].
  - assert (E : ret r = 0).
    { revert Hreq. unfold read_len_msg. destruct (_ =? _).
      - now intros [= <-].
      - destruct (_ >? _); [ discriminate | ].
        destruct (_ <? _); [ | discriminate ].
        intros [= E]. rewrite <- E in Hret. unfold EINVAL in Hret. lia. }
    rewrite E, Hsent, Hpos, slice_nil. cbn [length]. repeat split; lia.
  - destruct (read_len_msg_count st len offset n Hl' Hreq) as [Hn En].
    rewrite En in Hcopy.
    pose proof (copy_to_user_uncopied _ _ _ _ _ _ (proj1 Hn) Hcopy) as Hu.
    rewrite to_int_id in Hend by (revert Hl; unfold INT_MAX; lia).
    destruct Hend as [(E0 & Er & Hpos) | (_ & Er & _)];
      [ | rewrite Er in Hret; unfold EFAULT in Hret; lia ].
    subst uncopied.
    destruct (copy_to_user_none_left _ _ _ _ _ (proj1 Hn) Hcopy)
      as [Hsent Hcase].
    rewrite Er, Hsent, Hpos. unfold to_loff_t.
    unfold array_ok in Ha. unfold sizeof_g_message in Hcase.
    destruct Hcase as [-> | (Hnw & Hf & Hb)].
    + rewrite Z.add_0_r, (to_ssize_t_id _ Ho), slice_nil. cbn [length].
      repeat split; lia.
    + rewrite to_ssize_t_id by (unfold_c; lia).
      rewrite slice_length by lia. repeat split; lia.
Qed.

(** X2: for every [len] that fits [ssize_t], no read returns [-EINVAL]:
    the branch that would return it comes after the unsigned comparison of
    [len_msg] with [len], which a negative [len_msg] always passes. *)
Theorem read_never_returns_EINVAL st u_writable len offset r st' :
  0 <= len <= SSIZE_MAX ->
  chardev_read st u_writable len offset = Some (r, st') ->
  ret r <> - EINVAL.
Proof.
  intros Hl Hrd Habs.
  destruct (chardev_read_outcome _ _ _ _ _ _ Hrd)
    as [_ [(Hreq & _) | (n & uncopied & Hreq & _ & Hend)]].
  - rewrite Habs in Hreq.
    pose proof (read_EINVAL_only_for_huge_len st len offset Hreq). lia.
  - destruct (read_len_msg_count st len offset n Hl Hreq) as [Hn _].
    unfold EINVAL, EFAULT in *.
    destruct Hend as [(_ & Er & _) | (_ & Er & _)]; lia.
Qed.

(** X3: a read at an offset beyond the recorded length is served like any
    other as long as it stays within the array: it returns [len] bytes of
    the array from [offset] on, whatever was last stored there. *)
Theorem read_beyond_message_delivers_array_bytes st u_writable len offset :
  is_size_t (g_message_size st) ->
  g_message_size st < offset ->
  0 <= len <= u_writable -> offset + len <= sizeof_g_message ->
  chardev_read st u_writable len offset =
  Some ({| ret := len; f_pos := offset + len;
           to_user := slice (g_message st) offset len |}, st).
Proof.
  intros Hs Hgt Hl Hb. now apply chardev_read_beyond.
Qed.

(** X4: a read at an offset beyond the recorded length whose bytes do not
    all lie within the array is not refused either: the copy is asked for
    bytes past the end of [g_message]. *)
Theorem read_beyond_message_leaves_array st u_writable len offset :
  is_size_t (g_message_size st) -> is_loff_t offset ->
  g_message_size st < offset ->
  0 <= len <= SSIZE_MAX ->
  0 < Z.min len u_writable ->
  sizeof_g_message < offset + Z.min len u_writable ->
  chardev_read st u_writable len offset = None.
Proof.
  intros Hs Ho Hgt Hl Hk Hb. unfold chardev_read.
  rewrite (read_beyond_content_copies st len offset Hs Ho Hl) by lia.
  rewrite to_size_t_id by (revert Hl; unfold_c; lia).
  unfold copy_to_user.
  replace (Z.max 0 (Z.min len u_writable)) with (Z.min len u_writable) by lia.
  destruct (Z.eqb_spec (Z.min len u_writable) 0) as [E | _]; [ lia | ].
  destruct (Z.leb_spec (offset + Z.min len u_writable) sizeof_g_message);
    [ lia | ].
  now rewrite andb_false_r.
Qed.

(** X5: with the offset inside the message of a device of the data model,
    a read stays within the array whatever [len] and whatever the room at
    the user: it returns [-EFAULT] or a count of at most what is left. *)
Theorem read_within_message_stays_in_array st u_writable len offset :
  well_formed st -> is_size_t len ->
  0 <= offset <= g_message_size st ->
  exists r,
    chardev_read st u_writable len offset = Some (r, st) /\
    (ret r = - EFAULT \/
     0 <= ret r <= Z.min (g_message_size st - offset) len).
Proof.
  intros [Ha Hs] Hl Ho. unfold chardev_read.
  rewrite (read_len_msg_within st len offset Hs Hl Ho).
  unfold sizeof_g_message in Hs. unfold is_size_t in Hl.
  destruct (Z.eqb_spec (g_message_size st - offset) 0) as [E | E].
  - eexists. split; [ reflexivity | right ]. cbn [ret]. lia.
  - set (n := Z.min (g_message_size st - offset) len).
    assert (Hn : 0 <= n <= 1024) by lia.
    rewrite (to_size_t_id n) by (unfold_c; lia).
    unfold copy_to_user.
    set (copied := Z.max 0 (Z.min n u_writable)).
    assert (Hc : 0 <= copied <= n) by (unfold copied; lia).
    assert (Hi : forall z, 0 <= z <= 1024 -> to_int z = z)
      by (intros z Hz; apply to_int_id; unfold INT_MAX; lia).
    destruct (Z.eqb_spec copied 0) as [E0 | E0].
    + cbv zeta. rewrite Hi by lia.
      destruct (Z.eqb_spec n 0); eexists; (split; [ reflexivity | ]);
        cbn [ret]; [ right; lia | now left ].
    + replace ((0 <=? offset) && (offset + copied <=? sizeof_g_message))
        with true
        by (symmetry; apply andb_true_iff; unfold sizeof_g_message;
            split; apply Z.leb_le; lia).
      cbv zeta. rewrite Hi by lia.
      destruct (Z.eqb_spec (n - copied) 0); eexists;
        (split; [ reflexivity | ]); cbn [ret]; [ right; lia | now left ].
Qed.

(** X6: reading a message in two pieces gives what one read of both gives:
    a read of [k1] bytes followed by a read of [k2] bytes at the offset the
    first left delivers, put together, the bytes of one read of [k1 + k2]
    bytes, and leaves the same offset. *)
Theorem reads_in_pieces_compose st u_writable k1 k2 offset :
  well_formed st -> 0 <= k1 -> 0 <= k2 -> is_size_t (k1 + k2) ->
  0 <= offset <= g_message_size st ->
  Z.min (g_message_size st - offset) (k1 + k2) <= u_writable ->
  exists r1 r2 r,
    chardev_read st u_writable k1 offset = Some (r1, st) /\
    chardev_read st u_writable k2 (f_pos r1) = Some (r2, st) /\
    chardev_read st u_writable (k1 + k2) offset = Some (r, st) /\
    to_user r = to_user r1 ++ to_user r2 /\
    ret r = ret r1 + ret r2 /\
    f_pos r = f_pos r2.
Proof.
  intros Hwf H1 H2 H12 Ho Hroom.
  pose proof Hwf as [_ Hs]. unfold sizeof_g_message in Hs.
  set (s := g_message_size st) in *.
  set (n1 := Z.min (s - offset) k1).
  set (n2 := Z.min (s - (offset + n1)) k2).
  assert (Hsum : Z.min (s - offset) (k1 + k2) = n1 + n2)
    by (unfold n1, n2; lia).
  assert (Hk1 : is_size_t k1) by (unfold is_size_t in *; lia).
  assert (Hk2 : is_size_t k2) by (unfold is_size_t in *; lia).
  assert (R1 := chardev_read_within st u_writable k1 offset Hwf Hk1 Ho).
  assert (R2 := chardev_read_within st u_writable k2 (offset + n1) Hwf Hk2).
  assert (R := chardev_read_within st u_writable (k1 + k2) offset Hwf H12 Ho).
  fold s in R1, R2, R. fold n1 in R1. fold n2 in R2. rewrite Hsum in R.
  do 3 eexists.
  split; [ apply R1; unfold n1; lia | ].
  split; [ apply R2; unfold n1, n2; lia | ].
  split; [ apply R; lia | ].
  cbn [to_user ret f_pos]. repeat split; [ | lia ].
  symmetry. apply slice_app; unfold n1, n2; lia.
Qed.

End ReadProperties.

(** ** What a caller of write can rely on *)

Section WriteProperties.

Lemma store_0 (mem d : list byte) :
  store mem 0 d = d ++ skipn (length d) mem.
Proof. reflexivity. Qed.

(** Storing right behind a first piece. *)
Lemma store_behind (d1 d2 rest : list byte) :
  store (d1 ++ rest) (Z.of_nat (length d1)) d2
  = d1 ++ d2 ++ skipn (length d2) rest.
Proof.
  unfold store. rewrite Nat2Z.id, firstn_app, Nat.sub_diag, firstn_all.
  cbn [firstn]. rewrite app_nil_r, skipn_app.
  rewrite (skipn_all2 d1) by lia.
  replace (length d1 + length d2 - length d1)%nat with (length d2) by lia.
  reflexivity.
Qed.

(** What is left of a first message behind a shorter second one. *)
Lemma slice_behind_restart (d1 d2 rest : list byte) (offset : Z) :
  Z.of_nat (length d2) <= offset <= Z.of_nat (length d1) ->
  slice (store (d1 ++ rest) 0 d2) offset (Z.of_nat (length d1) - offset)
  = skipn (Z.to_nat offset) d1.
Proof.
  intros Ho. rewrite store_0. unfold slice.
  rewrite skipn_app, (skipn_all2 d2) by lia. cbn [app].
  rewrite skipn_skipn.
  replace (Z.to_nat offset - length d2 + length d2)%nat
    with (Z.to_nat offset) by lia.
  rewrite skipn_app.
  replace (Z.to_nat offset - length d1)%nat with 0%nat by lia.
  cbn [skipn]. rewrite firstn_app, length_skipn.
  replace (Z.to_nat (Z.of_nat (length d1) - offset)
           - (length d1 - Z.to_nat offset))%nat with 0%nat by lia.
  cbn [firstn]. rewrite app_nil_r. apply firstn_all2.
  rewrite length_skipn. lia.
Qed.

(** The device after a write of the whole of [data] at offset 0. *)
Lemma chardev_write_whole st data :
  Z.of_nat (length data) <= sizeof_g_message ->
  chardev_write st data (Z.of_nat (length data)) 0 =
  Some ({| ret := Z.of_nat (length data);
           f_pos := Z.of_nat (length data); to_user := [] |},
        {| g_message := data ++ skipn (length data) (g_message st);
           g_message_size := Z.of_nat (length data);
           g_number_open := g_number_open st;
           mutex_chardev := mutex_chardev st |}).
Proof.
  intros Hb. pose proof Hb as Hb'. unfold sizeof_g_message in Hb'.
  rewrite chardev_write_accepts by lia.
  rewrite Nat2Z.id, firstn_all, store_0. cbn [Z.eqb Z.add].
  rewrite to_size_t_id by (unfold_c; lia). reflexivity.
Qed.

(** X7: with an offset that is not negative and a [len] that fits
    [ssize_t], a write never touches memory outside the array: it returns
    [-EFBIG] with the device untouched, or [-EFAULT] with the length at 0,
    or [len] with its target inside the 1024 bytes. *)
Theorem write_at_offset_from_0_stays_in_array st u_buffer len offset :
  array_ok st -> 0 <= offset -> is_loff_t offset ->
  0 <= len <= SSIZE_MAX ->
  exists r st',
    chardev_write st u_buffer len offset = Some (r, st') /\
    array_ok st' /\
    (ret r = - EFBIG /\ st' = st \/
     ret r = - EFAULT /\ g_message_size st' = 0 \/
     ret r = len /\ offset + len <= sizeof_g_message).
Proof.
  intros Ha Ho Hlo Hl.
  assert (Hs : 0 <= len + offset <= SIZE_MAX)
    by (revert Hlo Hl; unfold_c; lia).
  assert (Hex : exists r st',
             chardev_write st u_buffer len offset = Some (r, st') /\
             (ret r = - EFBIG /\ st' = st \/
              ret r = - EFAULT /\ g_message_size st' = 0 \/
              ret r = len /\ offset + len <= sizeof_g_message)).
  { destruct (Z.le_gt_cases (offset + len) sizeof_g_message) as [B | B].
    - destruct (Z.le_gt_cases len (Z.of_nat (length u_buffer))) as [U | U].
      + rewrite chardev_write_accepts by lia.
        do 2 eexists. split; [ reflexivity | ]. right. right. now split.
      + unfold chardev_write, copy_from_user.
        rewrite (capacity_test_plain _ _ Hs).
        unfold sizeof_g_message in *.
        destruct (Z.gtb_spec (len + offset) 1024); [ lia | ].
        destruct (Z.eqb_spec len 0); [ lia | ].
        replace ((0 <=? offset) && (offset + len <=? 1024)) with true
          by (symmetry; apply andb_true_iff; split; apply Z.leb_le; lia).
        destruct (Z.eqb_spec (len - Z.min len (Z.of_nat (length u_buffer))) 0);
          [ lia | ].
        cbn [negb]. do 2 eexists. split; [ reflexivity | ].
        right. left. now split.
    - unfold chardev_write. rewrite (capacity_test_plain _ _ Hs).
      destruct (Z.gtb_spec (len + offset) sizeof_g_message); [ | lia ].
      do 2 eexists. split; [ reflexivity | ]. left. now split. }
  destruct Hex as (r & st' & Hw & Hcases).
  exists r, st'. split; [ exact Hw | split; [ | exact Hcases ] ].
  apply (chardev_write_array st u_buffer len offset r st' Ha (proj1 Hl) Hw).
Qed.

(** X8: the capacity test does not look at the sign of the offset: with a
    negative offset and a [len] that brings [len + offset] into [0, 1024],
    the write is let through and the copy is aimed in front of the
    array. *)
Theorem write_at_negative_offset_leaves_array st u_buffer len offset :
  offset < 0 -> 0 <= len + offset <= sizeof_g_message ->
  (to_size_t (to_ssize_t (len + offset)) >? sizeof_g_message) = false /\
  chardev_write st u_buffer len offset = None.
Proof.
  intros Hneg Hb. unfold sizeof_g_message in *.
  assert (Hs : 0 <= len + offset <= SIZE_MAX) by (unfold_c; lia).
  assert (Ht : (to_size_t (to_ssize_t (len + offset)) >? 1024) = false).
  { rewrite (capacity_test_plain _ _ Hs).
    destruct (Z.gtb_spec (len + offset) 1024); [ lia | reflexivity ]. }
  split; [ exact Ht | ].
  unfold chardev_write, copy_from_user, sizeof_g_message. rewrite Ht.
  destruct (Z.eqb_spec len 0); [ lia | ].
  destruct (Z.leb_spec 0 offset); [ lia | ]. reflexivity.
Qed.

(** X9: what is written at offset 0 is what is read back at offset 0: after
    a write of [data], a read of at least as many bytes returns [data] and
    leaves the offset at its end. *)
Theorem write_then_read_round_trip st data u_writable k :
  array_ok st ->
  Z.of_nat (length data) <= sizeof_g_message ->
  is_size_t k ->
  Z.of_nat (length data) <= k -> Z.of_nat (length data) <= u_writable ->
  exists rw st',
    chardev_write st data (Z.of_nat (length data)) 0 = Some (rw, st') /\
    ret rw = Z.of_nat (length data) /\
    chardev_read st' u_writable k 0 =
    Some ({| ret := Z.of_nat (length data);
             f_pos := Z.of_nat (length data);
             to_user := data |}, st').
Proof.
  intros Ha Hb Hk Hlk Hw. pose proof Hb as Hb'.
  unfold sizeof_g_message in Hb'. unfold array_ok in Ha.
  do 2 eexists. split; [ apply (chardev_write_whole st data Hb) | ].
  split; [ reflexivity | ].
  set (st' := {| g_message := data ++ skipn (length data) (g_message st);
                 g_message_size := Z.of_nat (length data);
                 g_number_open := g_number_open st;
                 mutex_chardev := mutex_chardev st |}).
  assert (Hwf : well_formed st').
  { split; [ | unfold st'; cbn [g_message_size];
                unfold sizeof_g_message; lia ].
    unfold array_ok, st'. cbn [g_message].
    rewrite length_app, length_skipn. lia. }
  assert (Ho : 0 <= 0 <= g_message_size st')
    by (unfold st'; cbn [g_message_size]; lia).
  rewrite (chardev_read_within st' u_writable k 0 Hwf Hk Ho)
    by (unfold st'; cbn [g_message_size]; lia).
  unfold st' at 1 2 3 4. cbn [g_message_size g_message].
  replace (Z.min (Z.of_nat (length data) - 0) k)
    with (Z.of_nat (length data)) by lia.
  rewrite <- store_0, slice_store_0. reflexivity.
Qed.

(** X10: writes that follow one another add up: a write of [d1] at offset
    0 and a write of [d2] at the offset the first one left store [d1 ++ d2]
    as the message, with the sum of the lengths. *)
Theorem sequential_writes_append st d1 d2 :
  array_ok st ->
  Z.of_nat (length d1) + Z.of_nat (length d2) <= sizeof_g_message ->
  exists r1 st1 r2 st2,
    chardev_write st d1 (Z.of_nat (length d1)) 0 = Some (r1, st1) /\
    chardev_write st1 d2 (Z.of_nat (length d2)) (f_pos r1) = Some (r2, st2) /\
    f_pos r2 = Z.of_nat (length d1) + Z.of_nat (length d2) /\
    g_message_size st2 = Z.of_nat (length d1) + Z.of_nat (length d2) /\
    content st2 = d1 ++ d2.
Proof.
  intros Ha Hb. pose proof Hb as Hb'. unfold sizeof_g_message in Hb'.
  do 4 eexists.
  split; [ apply chardev_write_whole; unfold sizeof_g_message; lia | ].
  cbn [f_pos].
  split; [ apply chardev_write_accepts; unfold sizeof_g_message; lia | ].
  cbn [f_pos g_message_size g_message]. split; [ reflexivity | ].
  assert (Hsize : to_size_t ((if Z.of_nat (length d1) =? 0 then 0
                              else Z.of_nat (length d1))
                             + Z.of_nat (length d2))
                  = Z.of_nat (length d1) + Z.of_nat (length d2)).
  { destruct (Z.eqb_spec (Z.of_nat (length d1)) 0) as [E | E];
      [ rewrite E | ]; apply to_size_t_id; unfold_c; lia. }
  split; [ exact Hsize | ].
  unfold content. cbn [g_message g_message_size]. rewrite Hsize.
  rewrite Nat2Z.id, firstn_all, store_behind. unfold slice.
  cbn [Z.to_nat skipn]. rewrite app_assoc, firstn_app.
  rewrite firstn_all2 by (rewrite length_app; lia).
  replace (Z.to_nat (Z.of_nat (length d1) + Z.of_nat (length d2))
           - length (d1 ++ d2))%nat with 0%nat
    by (rewrite length_app; lia).
  cbn [firstn]. apply app_nil_r.
Qed.

(** X11: a restart shortens the message but does not erase the buffer:
    after [d1] and then a shorter [d2] have been written at offset 0, the
    message is [d2], and a read at an offset beyond it still returns the
    bytes of [d1] that lie there. *)
Theorem restart_leaves_old_tail_readable st d1 d2 u_writable offset :
  array_ok st ->
  Z.of_nat (length d1) <= sizeof_g_message ->
  Z.of_nat (length d2) < offset <= Z.of_nat (length d1) ->
  Z.of_nat (length d1) - offset <= u_writable ->
  exists r1 st1 r2 st2,
    chardev_write st d1 (Z.of_nat (length d1)) 0 = Some (r1, st1) /\
    chardev_write st1 d2 (Z.of_nat (length d2)) 0 = Some (r2, st2) /\
    content st2 = d2 /\
    chardev_read st2 u_writable (Z.of_nat (length d1) - offset) offset =
    Some ({| ret := Z.of_nat (length d1) - offset;
             f_pos := Z.of_nat (length d1);
             to_user := skipn (Z.to_nat offset) d1 |}, st2).
Proof.
  intros Ha Hb Ho Hw. pose proof Hb as Hb'. unfold sizeof_g_message in Hb'.
  do 4 eexists.
  split; [ apply chardev_write_whole; exact Hb | ].
  split; [ apply chardev_write_whole; unfold sizeof_g_message; lia | ].
  cbn [g_message].
  split.
  - unfold content. cbn [g_message g_message_size].
    rewrite <- store_0. apply slice_store_0.
  - rewrite chardev_read_beyond;
      cbn [g_message g_message_size]; try lia.
    + rewrite <- (store_0 _ d2), slice_behind_restart by lia.
      do 3 f_equal. lia.
    + unfold_c. lia.
Qed.

End WriteProperties.

(** ** Invariants of runs *)

Section RunProperties.

(** A read looks at the buffer and the recorded length, at nothing else. *)
Lemma chardev_read_same_message st1 st2 u_writable len offset :
  g_message st1 = g_message st2 ->
  g_message_size st1 = g_message_size st2 ->
  option_map fst (chardev_read st1 u_writable len offset)
  = option_map fst (chardev_read st2 u_writable len offset).
Proof.
  intros Hm Hs. unfold chardev_read, read_len_msg. rewrite Hm, Hs.
  destruct (_ =? _); [ reflexivity | ].
  destruct (_ >? _).
  - destruct (copy_to_user _ _ _ _) as [[sent uncopied] | ];
      [ | reflexivity ].
    cbv zeta. destruct (_ =? _); reflexivity.
  - destruct (_ <? _); [ reflexivity | ].
    destruct (copy_to_user _ _ _ _) as [[sent uncopied] | ];
      [ | reflexivity ].
    cbv zeta. destruct (_ =? _); reflexivity.
Qed.

(** A call other than a write leaves buffer and length alone. *)
Lemma step_keeps_message st c r st' :
  keeps_message c -> step st c = Some (r, st') ->
  g_message st' = g_message st /\ g_message_size st' = g_message_size st.
Proof.
  destruct c as [ | | u len offset | u len offset]; cbn [keeps_message step];
    intros Hk Hs; [ | | | contradiction ].
  - revert Hs. unfold chardev_open. destruct (mutex_trylock _) as [t m].
    destruct (negb t); intros [= _ <-]; split; reflexivity.
  - injection Hs as _ <-. split; reflexivity.
  - destruct (chardev_read st u len offset) as [[rp st1] | ] eqn:E;
      [ | discriminate ].
    injection Hs as _ <-. apply chardev_read_device in E. subst st1.
    split; reflexivity.
Qed.

Lemma run_app cs1 : forall st cs2,
  run st (cs1 ++ cs2) =
  match run st cs1 with
  | None => None
  | Some (rs1, st1) =>
      match run st1 cs2 with
      | None => None
      | Some (rs2, st2) => Some (rs1 ++ rs2, st2)
      end
  end.
Proof.
  induction cs1 as [ | c cs1 IH]; intros st cs2; cbn [app run].
  - destruct (run st cs2) as [[rs2 st2] | ]; reflexivity.
  - destruct (step st c) as [[r st1] | ]; [ | reflexivity ].
    rewrite IH. destruct (run st1 cs1) as [[rs1 st2] | ]; [ | reflexivity ].
    destruct (run st2 cs2) as [[rs2 st3] | ]; reflexivity.
Qed.

Lemma run_of_reads cs : forall st rs st',
  Forall is_read cs -> run st cs = Some (rs, st') -> st' = st.
Proof.
  induction cs as [ | c cs IH]; intros st rs st' Hall.
  - now intros [= _ <-].
  - inversion Hall as [ | ? ? Hc Hcs]; subst. cbn [run].
    destruct c as [ | | u len offset | u len offset]; try contradiction.
    cbn [step].
    destruct (chardev_read st u len offset) as [[rp st1] | ] eqn:E;
      [ | discriminate ].
    apply chardev_read_device in E. subst st1.
    destruct (run st cs) as [[rs1 st2] | ] eqn:Er; [ | discriminate ].
    intros [= _ <-]. now apply (IH st rs1 st2).
Qed.

(** One sequential call keeps the device within the data model. *)
Lemma step_keeps_well_formed st c r st' :
  well_formed st -> well_typed c -> sequential st c ->
  step st c = Some (r, st') -> well_formed st'.
Proof.
  intros Hwf Hty Hseq Hs.
  assert (Hkeep : keeps_message c -> well_formed st').
  { intros Hk. destruct (step_keeps_message st c r st' Hk Hs) as [Hm Hz].
    destruct Hwf as [Ha Hb]. split;
      [ unfold array_ok; now rewrite Hm | now rewrite Hz ]. }
  destruct c as [ | | u len offset | u len offset];
    [ exact (Hkeep I) | exact (Hkeep I) | exact (Hkeep I) | clear Hkeep ].
  cbn [step] in Hs.
  destruct (chardev_write st u len offset) as [[rp st1] | ] eqn:E;
    [ | discriminate ].
  injection Hs as _ <-. destruct Hwf as [Ha Hb]. destruct Hty as [Hl Ho].
  split; [ apply (chardev_write_array st u len offset rp st1 Ha (proj1 Hl) E) | ].
  revert E. unfold chardev_write.
  destruct (_ >? _); [ now intros [= _ <-] | ].
  destruct (copy_from_user _ _ _ _) as [[mem uncopied] | ] eqn:Ec;
    [ | discriminate ].
  destruct (Z.eqb_spec uncopied 0) as [-> | N]; cbn [negb]; intros [= _ <-];
    cbn [g_message_size]; [ | unfold sizeof_g_message; lia ].
  apply copy_from_user_all in Ec; [ | apply Hl ].
  destruct Ec as (_ & _ & Hin). cbn [sequential] in Hseq.
  unfold sizeof_g_message in *. unfold is_size_t in Hl.
  assert (Hsum : 0 <= (if offset =? 0 then 0 else g_message_size st) + len
                 <= 1024).
  { destruct (Z.eqb_spec offset 0) as [E0 | E0]; [ lia | ].
    destruct Hseq as [-> | ->]; [ contradiction | lia ]. }
  rewrite to_size_t_id by (unfold_c; lia). exact Hsum.
Qed.

(** X12: as long as every write either restarts at offset 0 or continues
    where the message ends, the recorded length stays within the 1024
    bytes of the buffer, through any number of calls. *)
Theorem orderly_writes_keep_length_within_capacity st :
  orderly st -> well_formed st.
Proof.
  induction 1 as [ | st c r st' Hst IH Hty Hseq Hs].
  - split; [ reflexivity | cbn; unfold sizeof_g_message; lia ].
  - exact (step_keeps_well_formed st c r st' IH Hty Hseq Hs).
Qed.

(** X13: when a release is only ever called by the holder, the open
    counter is 1 while the lock is held and 0 while it is free. *)
Theorem open_count_follows_the_lock st :
  in_protocol st ->
  g_number_open st = if mutex_chardev st then 1 else 0.
Proof.
  induction 1 as [ | st c r st' Hst IH Hrel Hs].
  - reflexivity.
  - destruct c as [ | | u len offset | u len offset]; cbn [step] in Hs.
    + revert Hs. unfold chardev_open, mutex_trylock.
      destruct (mutex_chardev st) eqn:L; cbn [negb]; intros [= _ <-].
      * now rewrite L.
      * cbn [g_number_open mutex_chardev]. now rewrite IH.
    + injection Hs as _ <-. cbn [g_number_open mutex_chardev].
      rewrite IH, (Hrel eq_refl). reflexivity.
    + destruct (chardev_read st u len offset) as [[rp st1] | ] eqn:E;
        [ | discriminate ].
      injection Hs as _ <-. apply chardev_read_device in E. now subst st1.
    + destruct (chardev_write st u len offset) as [[rp st1] | ] eqn:E;
        [ | discriminate ].
      injection Hs as _ <-. apply chardev_write_frame in E.
      destruct E as [-> ->]. exact IH.
Qed.

(** X14: the message outlives the sessions: through any run of opens,
    releases and reads, buffer and recorded length stay as they are, and a
    read after the run is answered as it would have been before. *)
Theorem message_survives_sessions cs : forall st rs st',
  Forall keeps_message cs ->
  run st cs = Some (rs, st') ->
  g_message st' = g_message st /\
  g_message_size st' = g_message_size st /\
  forall u_writable len offset,
    option_map fst (chardev_read st' u_writable len offset)
    = option_map fst (chardev_read st u_writable len offset).
Proof.
  assert (Hkeep : forall cs st rs st',
             Forall keeps_message cs -> run st cs = Some (rs, st') ->
             g_message st' = g_message st /\
             g_message_size st' = g_message_size st).
  { clear cs. induction cs as [ | c cs IH]; intros st rs st' Hall.
    - intros [= _ <-]. split; reflexivity.
    - inversion Hall as [ | ? ? Hc Hcs]; subst. cbn [run].
      destruct (step st c) as [[r st1] | ] eqn:Es; [ | discriminate ].
      destruct (run st1 cs) as [[rs1 st2] | ] eqn:Er; [ | discriminate ].
      intros [= _ <-].
      destruct (step_keeps_message st c r st1 Hc Es) as [Hm Hz].
      destruct (IH st1 rs1 st2 Hcs Er) as [Hm' Hz'].
      split; congruence. }
  intros st rs st' Hall Hrun.
  destruct (Hkeep cs st rs st' Hall Hrun) as [Hm Hz].
  split; [ exact Hm | split; [ exact Hz | ] ].
  intros u_writable len offset. now apply chardev_read_same_message.
Qed.

(** X15: a session that only reads leaves no trace: an accepted open, any
    number of reads and the release give back the device exactly as it was
    found, counter and lock included. *)
Theorem read_only_session_leaves_no_trace st cs rs st' :
  mutex_chardev st = false -> 0 <= g_number_open st < SIZE_MAX ->
  Forall is_read cs ->
  run st (Open :: cs ++ [Release]) = Some (rs, st') ->
  st' = st.
Proof.
  intros Hfree Hn Hreads. cbn [run step].
  unfold chardev_open, mutex_trylock. rewrite Hfree. cbn [negb].
  rewrite run_app.
  set (st1 := {| g_message := g_message st;
                 g_message_size := g_message_size st;
                 g_number_open := to_size_t (g_number_open st + 1);
                 mutex_chardev := true |}).
  destruct (run st1 cs) as [[rs1 st2] | ] eqn:Er; [ | discriminate ].
  apply (run_of_reads cs st1 rs1 st2 Hreads) in Er. subst st2.
  cbn [run step]. unfold chardev_release, st1.
  cbn [g_message g_message_size g_number_open mutex_chardev mutex_unlock].
  intros [= _ <-].
  rewrite (to_size_t_id (g_number_open st + 1)) by (revert Hn; unfold_c; lia).
  replace (g_number_open st + 1 - 1) with (g_number_open st) by lia.
  rewrite to_size_t_id by (revert Hn; unfold_c; lia).
  destruct st. cbn in *. now subst.
Qed.


End RunProperties.

(** ** Loading and unloading *)

Module RegistrationFacts.

Import Registration.

(** An error pointer converts to the negative error number it stands for. *)
Lemma PTR_ERR_of_error_pointer (ptr : Z) :
  is_size_t ptr -> IS_ERR ptr = true ->
  to_int (PTR_ERR ptr) = ptr - two64 /\ - MAX_ERRNO <= ptr - two64 <= -1.
Proof.
  intros Hp. unfold IS_ERR, PTR_ERR.
  rewrite (to_size_t_id _ Hp).
  change (to_size_t (- MAX_ERRNO)) with (two64 - 4095).
  destruct (Z.geb_spec ptr (two64 - 4095)) as [G | G]; [ | discriminate ].
  intros _. rewrite (to_ssize_t_unsigned _ Hp).
  unfold MAX_ERRNO. revert Hp G. unfold_c. intros Hp G.
  destruct (Z.leb_spec ptr (9223372036854775808 - 1)); [ lia | ].
  split; [ | lia ]. apply to_int_id. unfold INT_MAX. lia.
Qed.

(** X17: [chardev_init] reports success in two cases only: every call
    succeeded and [cdev_add] returned 0, or [device_create] returned NULL.
    In the second case the class has been destroyed again and nothing is
    registered, yet the value returned is [PTR_ERR(NULL)], which is 0. *)
Theorem init_returns_0_iff g k :
  is_size_t (class_ptr k) ->
  (fst (fst (chardev_init g k)) = 0 <->
   0 <= region_ret k /\ IS_ERR (class_ptr k) = false /\
   (device_ptr k = NULL \/ cdev_add_ret k = 0)).
Proof.
  intros Hp. unfold chardev_init.
  destruct (major g =? 0); cbv beta iota zeta;
    (destruct (Z.ltb_spec (region_ret k) 0) as [R | R];
     [ cbn [fst]; split; [ lia | intros [H _]; lia ] | ]);
    cbn [chardev_class];
    (destruct (IS_ERR (class_ptr k)) eqn:Ec;
     [ cbn [fst];
       destruct (PTR_ERR_of_error_pointer _ Hp Ec) as [-> Hrange];
       split; [ lia | intros (_ & H & _); discriminate ] | ]);
    (destruct (Z.eqb_spec (device_ptr k) NULL) as [En | En]; cbn [fst];
     [ split; [ intros _; repeat split; auto | reflexivity ]
     | split; [ intros H; repeat split; auto
              | intros (_ & _ & [H | H]); [ contradiction | exact H ] ] ]).
Qed.

(** X18: [device_create] reports failure by an error pointer, which is not
    NULL; [chardev_init] tests for NULL only.  So when [device_create]
    fails after the calls before it succeeded, [chardev_init] goes on to
    [cdev_init] and [cdev_add] and returns what [cdev_add] returns. *)
Theorem init_goes_on_after_device_create_error g k :
  0 <= region_ret k -> IS_ERR (class_ptr k) = false ->
  IS_ERR (device_ptr k) = true ->
  fst (fst (chardev_init g k)) = cdev_add_ret k /\
  exists t dev,
    snd (chardev_init g k) = t ++ [cdev_init; cdev_add dev 1] /\
    dev = chardev_dev (snd (fst (chardev_init g k))).
Proof.
  intros Hr Hc Hd.
  assert (Hn : device_ptr k <> NULL).
  { intros E. rewrite E in Hd. discriminate Hd. }
  unfold chardev_init.
  destruct (major g =? 0); cbv beta iota zeta;
    (destruct (Z.ltb_spec (region_ret k) 0); [ lia | ]);
    cbn [chardev_class]; rewrite Hc;
    (destruct (Z.eqb_spec (device_ptr k) NULL); [ contradiction | ]);
    cbn [fst snd chardev_dev]; (split; [ reflexivity | ]).
  - exists [alloc_chrdev_region 0 1; class_create;
            device_create (class_ptr k)
              (if region_ret k =? 0 then region_dev k else chardev_dev g)].
    eexists. split; reflexivity.
  - exists [register_chrdev_region (MKDEV (major g) 0) 1; class_create;
            device_create (class_ptr k) (MKDEV (major g) 0)].
    eexists. split; reflexivity.
Qed.

(** X19: the only calls by which [chardev_init] undoes anything are
    [class_destroy] of the class it created and [unregister_chrdev] with
    the static [major]; it never calls [unregister_chrdev_region],
    [device_destroy] or [cdev_del], and the number it passes to
    [unregister_chrdev] is not read from the region the kernel assigned. *)
Theorem init_undoes_by_class_destroy_and_static_major g k c :
  In c (snd (chardev_init g k)) -> undoes c ->
  c = class_destroy (class_ptr k) \/ c = unregister_chrdev (major g).
Proof.
  unfold chardev_init.
  destruct (major g =? 0); cbv beta iota zeta;
    destruct (region_ret k <? 0); cbn [chardev_class major snd];
    try destruct (IS_ERR (class_ptr k));
    try destruct (device_ptr k =? NULL);
    cbn [snd app In]; intros Hin Hu;
    repeat (destruct Hin as [<- | Hin]; [ try contradiction; auto | ]);
    contradiction.
Qed.

(** X20: once the region, the class and the device have been obtained,
    [chardev_init] returns what [cdev_add] returns and makes no call that
    undoes anything, also when [cdev_add] has failed. *)
Theorem init_after_cdev_add_undoes_nothing g k c :
  0 <= region_ret k -> IS_ERR (class_ptr k) = false ->
  device_ptr k <> NULL ->
  fst (fst (chardev_init g k)) = cdev_add_ret k /\
  (In c (snd (chardev_init g k)) -> ~ undoes c).
Proof.
  intros Hr Hc Hn. unfold chardev_init.
  destruct (major g =? 0); cbv beta iota zeta;
    (destruct (Z.ltb_spec (region_ret k) 0); [ lia | ]);
    cbn [chardev_class]; rewrite Hc;
    (destruct (Z.eqb_spec (device_ptr k) NULL); [ contradiction | ]);
    cbn [fst snd app In]; (split; [ reflexivity | ]);
    intros Hin Hu;
    repeat (destruct Hin as [<- | Hin]; [ contradiction | ]);
    contradiction.
Qed.

(** X21: after a load that succeeded, [chardev_exit] undoes each
    registration of [chardev_init] with the values it was made with: the
    class that [class_create] returned and the device number of the region
    (the one the kernel assigned, or [MKDEV(major, 0)] when [major] is
    set). *)
Theorem exit_undoes_what_init_registered g k g' t :
  chardev_init g k = (0, g', t) ->
  region_ret k = 0 -> IS_ERR (class_ptr k) = false ->
  device_ptr k <> NULL ->
  exists region dev,
    dev = (if major g =? 0 then region_dev k else MKDEV (major g) 0) /\
    region = (if major g =? 0 then alloc_chrdev_region 0 1
              else register_chrdev_region dev 1) /\
    t = [region; class_create; device_create (class_ptr k) dev;
         cdev_init; cdev_add dev 1] /\
    chardev_exit g' =
      [cdev_del; device_destroy (class_ptr k) dev;
       class_destroy (class_ptr k); unregister_chrdev_region dev 1;
       mutex_destroy].
Proof.
  intros Hinit Hr Hc Hn. revert Hinit. unfold chardev_init. rewrite Hr.
  destruct (major g =? 0); cbv beta iota zeta; cbn [Z.ltb Z.eqb Z.compare];
    cbn [chardev_class]; rewrite Hc;
    (destruct (Z.eqb_spec (device_ptr k) NULL); [ contradiction | ]);
    intros [= _ <- <-]; do 2 eexists;
    (split; [ reflexivity | split; [ reflexivity | split; reflexivity ] ]).
Qed.

End RegistrationFacts.

(** ** The further properties at sample inputs *)

Section MoreInstances.

Lemma holding_hello_well_formed : well_formed (holding hello).
Proof. split; [ reflexivity | cbn; unfold sizeof_g_message; lia ]. Defined.

Lemma holding_b0_b9_well_formed : well_formed (holding b0_b9).
Proof. split; [ reflexivity | cbn; unfold sizeof_g_message; lia ]. Defined.

Lemma read_delivers_what_it_returns_witness :
  chardev_read (holding hello) 3 3 1 =
  Some ({| ret := 3; f_pos := 4; to_user := [x45; x4c; x4c] |},
        holding hello) /\
  [x45; x4c; x4c] = slice (g_message (holding hello)) 1 3 /\
  4 = 1 + 3.
Proof.
  assert (Hrd : chardev_read (holding hello) 3 3 1 =
                Some ({| ret := 3; f_pos := 4; to_user := [x45; x4c; x4c] |},
                      holding hello)) by (vm_compute; reflexivity).
  assert (Ha : array_ok (holding hello)) by reflexivity.
  assert (Ho : is_loff_t 1) by (unfold_c; lia).
  assert (Hl : 0 <= 3 <= INT_MAX) by (unfold INT_MAX; lia).
  assert (Hw : 0 <= 3) by lia.
  assert (Hr : 0 <= ret {| ret := 3; f_pos := 4;
                           to_user := [x45; x4c; x4c] |}) by (cbn; lia).
  destruct (read_delivers_what_it_returns _ _ _ _ _ _ Ha Ho Hl Hw Hrd Hr)
    as (_ & _ & _ & Hs & _ & Hp).
  split; [ exact Hrd | split; [ exact Hs | exact Hp ] ].
Defined.

Lemma read_never_returns_EINVAL_witness :
  chardev_read (holding hello) 1 1 10 =
  Some ({| ret := 1; f_pos := 11; to_user := [x00] |}, holding hello) /\
  1 <> - EINVAL.
Proof.
  assert (Hrd : chardev_read (holding hello) 1 1 10 =
                Some ({| ret := 1; f_pos := 11; to_user := [x00] |},
                      holding hello)) by (vm_compute; reflexivity).
  assert (Hl : 0 <= 1 <= SSIZE_MAX) by (unfold_c; lia).
  split; [ exact Hrd | ].
  exact (read_never_returns_EINVAL _ _ _ _ _ _ Hl Hrd).
Defined.

Lemma read_beyond_message_delivers_array_bytes_witness :
  g_message_size (holding hello) < 10 /\
  chardev_read (holding hello) 1 1 10 =
  Some ({| ret := 1; f_pos := 11; to_user := [x00] |}, holding hello).
Proof.
  assert (Hs : is_size_t (g_message_size (holding hello)))
    by (cbn; unfold_c; lia).
  assert (Hgt : g_message_size (holding hello) < 10) by (cbn; lia).
  assert (Hl : 0 <= 1 <= 1) by lia.
  assert (Hb : 10 + 1 <= sizeof_g_message) by (unfold sizeof_g_message; lia).
  split; [ exact Hgt | ].
  exact (read_beyond_message_delivers_array_bytes (holding hello) 1 1 10
           Hs Hgt Hl Hb).
Defined.

Lemma read_beyond_message_leaves_array_witness :
  g_message_size (holding hello) < 10 /\
  sizeof_g_message < 10 + Z.min 2000 2000 /\
  chardev_read (holding hello) 2000 2000 10 = None.
Proof.
  assert (Hs : is_size_t (g_message_size (holding hello)))
    by (cbn; unfold_c; lia).
  assert (Ho : is_loff_t 10) by (unfold_c; lia).
  assert (Hgt : g_message_size (holding hello) < 10) by (cbn; lia).
  assert (Hl : 0 <= 2000 <= SSIZE_MAX) by (unfold_c; lia).
  assert (Hk : 0 < Z.min 2000 2000) by lia.
  assert (Hb : sizeof_g_message < 10 + Z.min 2000 2000)
    by (unfold sizeof_g_message; lia).
  split; [ exact Hgt | split; [ exact Hb | ] ].
  exact (read_beyond_message_leaves_array (holding hello) 2000 2000 10
           Hs Ho Hgt Hl Hk Hb).
Defined.

Lemma read_within_message_stays_in_array_witness :
  exists r,
    chardev_read (holding hello) 0 5 0 = Some (r, holding hello) /\
    (ret r = - EFAULT \/
     0 <= ret r <= Z.min (g_message_size (holding hello) - 0) 5).
Proof.
  assert (Hl : is_size_t 5) by (unfold_c; lia).
  assert (Ho : 0 <= 0 <= g_message_size (holding hello)) by (cbn; lia).
  exact (read_within_message_stays_in_array (holding hello) 0 5 0
           holding_hello_well_formed Hl Ho).
Defined.

Lemma reads_in_pieces_compose_witness :
  exists r1 r2 r,
    chardev_read (holding b0_b9) 10 3 2 = Some (r1, holding b0_b9) /\
    chardev_read (holding b0_b9) 10 4 (f_pos r1) = Some (r2, holding b0_b9) /\
    chardev_read (holding b0_b9) 10 (3 + 4) 2 = Some (r, holding b0_b9) /\
    to_user r = to_user r1 ++ to_user r2 /\
    ret r = ret r1 + ret r2 /\
    f_pos r = f_pos r2.
Proof.
  assert (H1 : 0 <= 3) by lia. assert (H2 : 0 <= 4) by lia.
  assert (H12 : is_size_t (3 + 4)) by (unfold_c; lia).
  assert (Ho : 0 <= 2 <= g_message_size (holding b0_b9)) by (cbn; lia).
  assert (Hroom : Z.min (g_message_size (holding b0_b9) - 2) (3 + 4) <= 10)
    by (cbn; lia).
  exact (reads_in_pieces_compose (holding b0_b9) 10 3 4 2
           holding_b0_b9_well_formed H1 H2 H12 Ho Hroom).
Defined.

Lemma write_at_offset_from_0_stays_in_array_witness :
  exists r st',
    chardev_write chardev_init ab 2 5 = Some (r, st') /\
    array_ok st' /\
    (ret r = - EFBIG /\ st' = chardev_init \/
     ret r = - EFAULT /\ g_message_size st' = 0 \/
     ret r = 2 /\ 5 + 2 <= sizeof_g_message).
Proof.
  assert (Ha : array_ok chardev_init) by reflexivity.
  assert (Ho : 0 <= 5) by lia.
  assert (Hlo : is_loff_t 5) by (unfold_c; lia).
  assert (Hl : 0 <= 2 <= SSIZE_MAX) by (unfold_c; lia).
  exact (write_at_offset_from_0_stays_in_array chardev_init ab 2 5
           Ha Ho Hlo Hl).
Defined.

Lemma write_at_negative_offset_leaves_array_witness :
  (to_size_t (to_ssize_t (10 + -5)) >? sizeof_g_message) = false /\
  chardev_write chardev_init hello 10 (-5) = None.
Proof.
  assert (Hneg : -5 < 0) by lia.
  assert (Hb : 0 <= 10 + -5 <= sizeof_g_message)
    by (unfold sizeof_g_message; lia).
  exact (write_at_negative_offset_leaves_array chardev_init hello 10 (-5)
           Hneg Hb).
Defined.

Lemma write_then_read_round_trip_witness :
  exists rw st',
    chardev_write chardev_init hello (Z.of_nat (length hello)) 0
    = Some (rw, st') /\
    ret rw = Z.of_nat (length hello) /\
    chardev_read st' 5 8 0 =
    Some ({| ret := Z.of_nat (length hello);
             f_pos := Z.of_nat (length hello);
             to_user := hello |}, st').
Proof.
  assert (Ha : array_ok chardev_init) by reflexivity.
  assert (Hb : Z.of_nat (length hello) <= sizeof_g_message)
    by (cbn; unfold sizeof_g_message; lia).
  assert (Hk : is_size_t 8) by (unfold_c; lia).
  assert (Hlk : Z.of_nat (length hello) <= 8) by (cbn; lia).
  assert (Hw : Z.of_nat (length hello) <= 5) by (cbn; lia).
  exact (write_then_read_round_trip chardev_init hello 5 8 Ha Hb Hk Hlk Hw).
Defined.

Lemma sequential_writes_append_witness :
  exists r1 st1 r2 st2,
    chardev_write chardev_init ab (Z.of_nat (length ab)) 0 = Some (r1, st1) /\
    chardev_write st1 cd (Z.of_nat (length cd)) (f_pos r1) = Some (r2, st2) /\
    f_pos r2 = Z.of_nat (length ab) + Z.of_nat (length cd) /\
    g_message_size st2 = Z.of_nat (length ab) + Z.of_nat (length cd) /\
    content st2 = ab ++ cd.
Proof.
  assert (Ha : array_ok chardev_init) by reflexivity.
  assert (Hb : Z.of_nat (length ab) + Z.of_nat (length cd) <= sizeof_g_message)
    by (cbn; unfold sizeof_g_message; lia).
  exact (sequential_writes_append chardev_init ab cd Ha Hb).
Defined.

Lemma restart_leaves_old_tail_readable_witness :
  exists r1 st1 r2 st2,
    chardev_write chardev_init hello (Z.of_nat (length hello)) 0
    = Some (r1, st1) /\
    chardev_write st1 ab (Z.of_nat (length ab)) 0 = Some (r2, st2) /\
    content st2 = ab /\
    chardev_read st2 2 (Z.of_nat (length hello) - 3) 3 =
    Some ({| ret := Z.of_nat (length hello) - 3;
             f_pos := Z.of_nat (length hello);
             to_user := skipn (Z.to_nat 3) hello |}, st2).
Proof.
  assert (Ha : array_ok chardev_init) by reflexivity.
  assert (Hb : Z.of_nat (length hello) <= sizeof_g_message)
    by (cbn; unfold sizeof_g_message; lia).
  assert (Ho : Z.of_nat (length ab) < 3 <= Z.of_nat (length hello))
    by (cbn; lia).
  assert (Hw : Z.of_nat (length hello) - 3 <= 2) by (cbn; lia).
  exact (restart_leaves_old_tail_readable chardev_init hello ab 2 3
           Ha Hb Ho Hw).
Defined.

Lemma orderly_writes_witness :
  orderly (holding (ab ++ cd)) /\ well_formed (holding (ab ++ cd)).
Proof.
  assert (H1 : orderly (holding ab)).
  { apply (orderly_step chardev_init (Write ab 2 0) 2 (holding ab)).
    - apply orderly_init.
    - split; unfold_c; lia.
    - left. reflexivity.
    - vm_compute. reflexivity. }
  assert (H2 : orderly (holding (ab ++ cd))).
  { apply (orderly_step (holding ab) (Write cd 2 2) 2 (holding (ab ++ cd))).
    - exact H1.
    - split; unfold_c; lia.
    - right. reflexivity.
    - vm_compute. reflexivity. }
  split; [ exact H2 | ].
  exact (orderly_writes_keep_length_within_capacity _ H2).
Defined.

Lemma open_count_follows_the_lock_witness :
  in_protocol opened /\
  g_number_open opened = if mutex_chardev opened then 1 else 0.
Proof.
  assert (H : in_protocol opened).
  { apply (in_protocol_step chardev_init Open 0 opened).
    - apply in_protocol_init.
    - discriminate.
    - reflexivity. }
  split; [ exact H | exact (open_count_follows_the_lock _ H) ].
Defined.

Lemma message_survives_sessions_witness :
  exists rs st',
    run (holding hello) [Open; Read 5 5 0; Release; Open] = Some (rs, st') /\
    g_message st' = g_message (holding hello) /\
    g_message_size st' = g_message_size (holding hello).
Proof.
  assert (Hall : Forall keeps_message [Open; Read 5 5 0; Release; Open])
    by (repeat constructor).
  assert (Hrun : run (holding hello) [Open; Read 5 5 0; Release; Open]
                 = Some ([0; 5; 0; 0],
                         {| g_message := g_message (holding hello);
                            g_message_size := 5;
                            g_number_open := 1;
                            mutex_chardev := true |}))
    by (vm_compute; reflexivity).
  destruct (message_survives_sessions _ _ _ _ Hall Hrun) as (Hm & Hz & _).
  do 2 eexists. split; [ exact Hrun | split; [ exact Hm | exact Hz ] ].
Defined.

Lemma read_only_session_witness :
  exists rs,
    run (holding hello) (Open :: [Read 5 5 0; Read 5 5 5] ++ [Release])
    = Some (rs, holding hello).
Proof.
  assert (Hfree : mutex_chardev (holding hello) = false) by reflexivity.
  assert (Hn : 0 <= g_number_open (holding hello) < SIZE_MAX)
    by (cbn; unfold_c; lia).
  assert (Hreads : Forall is_read [Read 5 5 0; Read 5 5 5])
    by (repeat constructor).
  assert (Hrun : run (holding hello)
                   (Open :: [Read 5 5 0; Read 5 5 5] ++ [Release])
                 = Some ([0; 5; 0; 0],
                         {| g_message := g_message (holding hello);
                            g_message_size := 5;
                            g_number_open := 0;
                            mutex_chardev := false |}))
    by (vm_compute; reflexivity).
  pose proof (read_only_session_leaves_no_trace _ _ _ _ Hfree Hn Hreads Hrun)
    as E.
  exists [0; 5; 0; 0]. rewrite Hrun, E. reflexivity.
Defined.


End MoreInstances.

Module RegistrationInstances.

Import Registration.

Lemma init_returns_0_witness :
  fst (fst (chardev_init at_load all_fine)) = 0.
Proof.
  assert (Hp : is_size_t (class_ptr all_fine)) by (cbn; unfold_c; lia).
  apply (proj2 (RegistrationFacts.init_returns_0_iff at_load all_fine Hp)).
  split; [ cbn; lia | split; [ reflexivity | right; reflexivity ] ].
Defined.

Lemma init_goes_on_after_device_create_error_witness :
  IS_ERR (device_ptr device_fails) = true /\
  fst (fst (chardev_init at_load device_fails)) = 0.
Proof.
  assert (Hr : 0 <= region_ret device_fails) by (cbn; lia).
  assert (Hc : IS_ERR (class_ptr device_fails) = false) by reflexivity.
  assert (Hd : IS_ERR (device_ptr device_fails) = true) by reflexivity.
  split; [ exact Hd | ].
  exact (proj1 (RegistrationFacts.init_goes_on_after_device_create_error
                  at_load device_fails Hr Hc Hd)).
Defined.

Lemma init_undo_witness :
  In (unregister_chrdev 0) (snd (chardev_init at_load class_fails)) /\
  (unregister_chrdev 0 = class_destroy (class_ptr class_fails) \/
   unregister_chrdev 0 = unregister_chrdev (major at_load)).
Proof.
  assert (Hin : In (unregister_chrdev 0)
                  (snd (chardev_init at_load class_fails)))
    by (vm_compute; auto).
  split; [ exact Hin | ].
  exact (RegistrationFacts.init_undoes_by_class_destroy_and_static_major
           at_load class_fails (unregister_chrdev 0) Hin I).
Defined.

Lemma init_after_cdev_add_witness :
  fst (fst (chardev_init at_load
              {| region_ret := 0; region_dev := MKDEV 240 0;
                 class_ptr := 4096; device_ptr := 8192;
                 cdev_add_ret := -12 |})) = -12.
Proof.
  exact (proj1 (RegistrationFacts.init_after_cdev_add_undoes_nothing
                  at_load
                  {| region_ret := 0; region_dev := MKDEV 240 0;
                     class_ptr := 4096; device_ptr := 8192;
                     cdev_add_ret := -12 |}
                  cdev_init
                  ltac:(cbn; lia) eq_refl ltac:(cbn; unfold NULL; lia))).
Defined.

Lemma exit_undoes_what_init_registered_witness :
  exists region dev,
    dev = (if major at_load =? 0 then region_dev all_fine
           else MKDEV (major at_load) 0) /\
    region = (if major at_load =? 0 then alloc_chrdev_region 0 1
              else register_chrdev_region dev 1) /\
    snd (chardev_init at_load all_fine) =
      [region; class_create; device_create (class_ptr all_fine) dev;
       cdev_init; cdev_add dev 1] /\
    chardev_exit (snd (fst (chardev_init at_load all_fine))) =
      [cdev_del; device_destroy (class_ptr all_fine) dev;
       class_destroy (class_ptr all_fine); unregister_chrdev_region dev 1;
       mutex_destroy].
Proof.
  assert (Hn : device_ptr all_fine <> NULL) by (cbn; unfold NULL; lia).
  exact (RegistrationFacts.exit_undoes_what_init_registered
           at_load all_fine _ _ eq_refl eq_refl eq_refl Hn).
Defined.

End RegistrationInstances.
